(** * A shallow embedding of [cpu.py]: the LS-8 style virtual CPU

    The Python program keeps all of its state in mutable objects and signals
    failures with exceptions.  Both are modelled explicitly: a computation is
    a function from the state of the object it mutates to the state it leaves
    behind together with either a value or the exception that was raised.
    The state survives a raised exception, exactly as a Python
    object keeps the mutations made before the [raise]. *)

From Stdlib Require Import ZArith Lia Ascii String.
From stdpp Require Import base numbers list strings gmap pretty.

Local Open Scope Z_scope.

(** ** Exceptions and the state-and-exception monad *)

(** The exception classes that the program (or the builtin [int]) can raise.
    The payload of the first three is the exception message. *)
Inductive exn : Type :=
  | ReferenceError (msg : string)
  | TypeError (msg : string)
  | ValueError (msg : string)
  | OverflowError (msg : string)
  | KeyError (key : Z)
  | IndexError (msg : string).

Inductive result (A : Type) : Type :=
  | Ok (a : A)
  | Raise (e : exn).
Arguments Ok {A} a.
Arguments Raise {A} e.

Definition M (S A : Type) : Type := S -> S * result A.

Definition ret {S A} (a : A) : M S A := fun s => (s, Ok a).

Definition raise {S A} (e : exn) : M S A := fun s => (s, Raise e).

Definition bind {S A B} (m : M S A) (k : A -> M S B) : M S B :=
  fun s => match m s with
           | (s1, Ok a) => k a s1
           | (s1, Raise e) => (s1, Raise e)
           end.

(** [try: body / except: handler]; the handler re-raises what it does not
    catch. *)
Definition try_except {S A} (body : M S A) (handler : exn -> M S A) : M S A :=
  fun s => match body s with
           | (s1, Ok a) => (s1, Ok a)
           | (s1, Raise e) => handler e s1
           end.

Definition get {S} : M S S := fun s => (s, Ok s).
Definition modify {S} (f : S -> S) : M S unit := fun s => (f s, Ok tt).

(** A pure computation that may raise, run inside a stateful one. *)
Definition lift_result {S A} (r : result A) : M S A := fun s => (s, r).

Declare Scope py_scope.
Delimit Scope py_scope with py.
Notation "'let!' x ':=' m 'in' k" := (bind m (fun x => k))
  (at level 10, x name, m at level 100, k at level 200) : py_scope.
Notation "m ;; k" := (bind m (fun _ => k))
  (at level 100, k at level 200, right associativity) : py_scope.
Local Open Scope py_scope.

(** ** Python values and the builtin [int] *)

(** A Python [float] is either a finite dyadic rational [m * 2^e] or one of
    the special values. *)
Inductive pyfloat : Type :=
  | FFinite (m e : Z)
  | FInf (negative : bool)
  | FNaN.

(** The values that can be handed to [Memory.write_byte].  The method does
    one thing with its argument, [int(data)], so an object that is not one
    of the first four kinds (a [str], a [bytes], an instance with its own
    [__int__]) is known by the outcome of [int] on it and by nothing
    else: the integer returned or the exception raised. *)
Inductive pyval : Type :=
  | PyInt (z : Z)
  | PyBool (b : bool)
  | PyFloat (f : pyfloat)
  | PyNone
  | PyObject (int_outcome : result Z).

(** [int(x)] for one argument: integers and booleans convert, a finite float
    is truncated toward zero, infinities and NaN and [None] are refused, and
    any other object gives its own outcome. *)
Definition py_int (x : pyval) : result Z :=
  match x with
  | PyInt z => Ok z
  | PyBool b => Ok (if b then 1 else 0)
  | PyFloat (FFinite m e) =>
      Ok (if 0 <=? e then m * 2 ^ e else Z.quot m (2 ^ (- e)))
  | PyFloat (FInf _) =>
      Raise (OverflowError "cannot convert float infinity to integer")
  | PyFloat FNaN =>
      Raise (ValueError "cannot convert float NaN to integer")
  | PyNone =>
      Raise (TypeError "int() argument must be a string, a bytes-like object or a real number, not 'NoneType'")
  | PyObject int_outcome => int_outcome
  end.

(** ** [class Memory]: single-byte addressable guarded memory *)

Record Memory : Type := mkMemory {
  size : Z;
  internal_memory : list Z
}.

(** [[0] * n] *)
Definition list_repeat0 (n : Z) : list Z := replicate (Z.to_nat n) 0.

Definition clear : M Memory unit :=
  modify (fun m => mkMemory (size m) (list_repeat0 (size m))).

(** [Memory(size)]: the constructor stores the size and clears. *)
Definition Memory_init (sz : Z) : Memory :=
  fst (clear (mkMemory sz [])).

(** [lst[i]] for an index already known to be non-negative. *)
Definition list_get (l : list Z) (i : Z) : result Z :=
  match l !! Z.to_nat i with
  | Some v => Ok v
  | None => Raise (IndexError "list index out of range")
  end.

(** [lst[i] = v] for an index already known to be non-negative. *)
Definition list_set (l : list Z) (i : Z) (v : Z) : result (list Z) :=
  if decide (Z.to_nat i < length l)%nat
  then Ok (<[Z.to_nat i := v]> l)
  else Raise (IndexError "list assignment index out of range").

Definition out_of_bounds : exn :=
  ReferenceError "Out of bounds memory reference".

Definition not_a_byte : exn :=
  TypeError "Data must be an 8-bit number".

Definition read_byte (address : Z) : M Memory Z :=
  let! m := get in
  if (address <? 0) || (address >? size m - 1)
  then raise out_of_bounds
  else lift_result (list_get (internal_memory m) address).

Definition write_byte (address : Z) (data : pyval) : M Memory unit :=
  let! m := get in
  if (address <? 0) || (address >? size m - 1)
  then raise out_of_bounds
  else
    try_except
      (let! real_byte := lift_result (py_int data) in
       if real_byte >? 255 then raise (TypeError "Integer overflow")
       else if real_byte <? 0 then raise (TypeError "Integer underflow")
       else
         let! l := lift_result (list_set (internal_memory m) address real_byte) in
         modify (fun m => mkMemory (size m) l))
      (fun e => match e with
                | TypeError _ => raise not_a_byte
                | _ => raise e
                end).

(** The representation invariant of a [Memory]: the backing list has
    [size] cells. *)
Definition mem_wf (m : Memory) : Prop :=
  Z.of_nat (length (internal_memory m)) = Z.max 0 (size m).

(** The cell at a valid address. *)
Definition cell (m : Memory) (a : Z) : Z :=
  default 0 (internal_memory m !! Z.to_nat a).

Definition set_cell (m : Memory) (a v : Z) : Memory :=
  mkMemory (size m) (<[Z.to_nat a := v]> (internal_memory m)).

(** ** Text output: [print], ["%02X"] and [str] of an integer *)

Definition hex_digit (d : Z) : string :=
  String (ascii_of_nat (Z.to_nat (if d <? 10 then 48 + d else 55 + d)))
         EmptyString.

Fixpoint hex_digits (fuel : nat) (n : Z) : string :=
  match fuel with
  | O => hex_digit (n mod 16)
  | S fuel' =>
      if n <? 16 then hex_digit n
      else (hex_digits fuel' (n / 16) +:+ hex_digit (n mod 16))%string
  end.

(** ["%02X" % n]: upper-case hexadecimal, zero-padded to two characters. *)
Definition format_02X (n : Z) : string :=
  if n <? 0 then ("-" +:+ hex_digits (Z.to_nat (Z.log2 (- n))) (- n))%string
  else if n <? 16 then ("0" +:+ hex_digit n)%string
  else hex_digits (Z.to_nat (Z.log2 n)) n.

(** ** [class CPU] *)

(** The fields of the object that [run] and the instruction handlers touch,
    and the lines written to standard output so far.  ([trace_history] is
    only used by [trace], which [run] does not call.) *)
Record CPU : Type := mkCPU {
  ram : Memory;
  gp_registers : Memory;
  PC : Z;
  IR : Z;
  FL : Z;
  stdout : list string
}.

Definition set_ram (m : Memory) (c : CPU) : CPU :=
  mkCPU m (gp_registers c) (PC c) (IR c) (FL c) (stdout c).
Definition set_gp_registers (m : Memory) (c : CPU) : CPU :=
  mkCPU (ram c) m (PC c) (IR c) (FL c) (stdout c).
Definition set_PC (v : Z) (c : CPU) : CPU :=
  mkCPU (ram c) (gp_registers c) v (IR c) (FL c) (stdout c).
Definition set_IR (v : Z) (c : CPU) : CPU :=
  mkCPU (ram c) (gp_registers c) (PC c) v (FL c) (stdout c).
Definition set_FL (v : Z) (c : CPU) : CPU :=
  mkCPU (ram c) (gp_registers c) (PC c) (IR c) v (stdout c).
Definition set_stdout (v : list string) (c : CPU) : CPU :=
  mkCPU (ram c) (gp_registers c) (PC c) (IR c) (FL c) v.

(** A method of [self.ram] called from a method of the CPU. *)
Definition on_ram {A} (m : M Memory A) : M CPU A :=
  fun c => let (r, x) := m (ram c) in (set_ram r c, x).

(** A method of [self.gp_registers] called from a method of the CPU. *)
Definition on_regs {A} (m : M Memory A) : M CPU A :=
  fun c => let (r, x) := m (gp_registers c) in (set_gp_registers r c, x).

Definition print (line : string) : M CPU unit :=
  modify (fun c => set_stdout (stdout c ++ [line]) c).

Definition MAX_MEM : Z := 256.

(** The supported instructions. *)
Module Op.
Definition HLT : Z := 0x01.
Definition PUSH : Z := 0x45.
Definition POP : Z := 0x46.
Definition PRN : Z := 0x47.
Definition JMP : Z := 0x54.
Definition JNE : Z := 0x55.
Definition JEQ : Z := 0x56.
Definition LDI : Z := 0x82.
Definition MUL : Z := 0xA2.
Definition CMP : Z := 0xA7.
End Op.

(** Flag masks: their position within the FLAGS register. *)
Definition FLAG_RUNNING : Z := 0x80.
Definition FLAG_LESS : Z := 0x04.
Definition FLAG_GREATER : Z := 0x02.
Definition FLAG_EQUAL : Z := 0x01.

Definition get_SP : M CPU Z := on_regs (read_byte 7).

Definition set_SP (value : Z) : M CPU unit :=
  on_regs (write_byte 7 (PyInt value)).

Definition ram_read (address : Z) : M CPU Z := on_ram (read_byte address).

Definition ram_write (address : Z) (value : Z) : M CPU unit :=
  on_ram (write_byte address (PyInt value)).

(** *** Implementation of the CPU instructions *)

Definition HLT : M CPU unit :=
  modify (fun c => set_FL (Z.land (FL c) (Z.lnot FLAG_RUNNING)) c).

Definition LDI : M CPU unit :=
  let! c := get in
  let! reg_num := ram_read (PC c + 1) in
  let! reg_val := ram_read (PC c + 2) in
  on_regs (write_byte reg_num (PyInt reg_val)).

Definition PRN : M CPU unit :=
  let! c := get in
  let! reg_num := ram_read (PC c + 1) in
  let! reg_val := on_regs (read_byte reg_num) in
  print (pretty reg_val).

Definition PUSH : M CPU unit :=
  let! sp := get_SP in
  set_SP (sp - 1) ;;
  let! c := get in
  let! reg_num := ram_read (PC c + 1) in
  let! data := on_regs (read_byte reg_num) in
  let! sp := get_SP in
  ram_write sp data.

Definition POP : M CPU unit :=
  let! c := get in
  let! reg_num := ram_read (PC c + 1) in
  let! sp := get_SP in
  let! data := ram_read sp in
  on_regs (write_byte reg_num (PyInt data)) ;;
  let! sp := get_SP in
  set_SP (sp + 1).

Definition JMP : M CPU unit :=
  let! c := get in
  let! reg_num := ram_read (PC c + 1) in
  let! target := on_regs (read_byte reg_num) in
  modify (set_PC target).

Definition JEQ : M CPU unit :=
  let! c := get in
  if Z.land (FL c) FLAG_EQUAL =? FLAG_EQUAL
  then JMP
  else modify (fun c => set_PC (PC c + 2) c).

Definition JNE : M CPU unit :=
  let! c := get in
  if Z.land (FL c) FLAG_EQUAL =? 0
  then JMP
  else modify (fun c => set_PC (PC c + 2) c).

(** *** ALU instructions take two operands stored in registers *)

Definition MUL (reg_a reg_b : Z) : M CPU unit :=
  let! reg_a_val := on_regs (read_byte reg_a) in
  let! reg_b_val := on_regs (read_byte reg_b) in
  let result := reg_a_val * reg_b_val in
  on_regs (write_byte reg_a (PyInt result)).

Definition CMP (reg_a reg_b : Z) : M CPU unit :=
  let! reg_a_val := on_regs (read_byte reg_a) in
  let! reg_b_val := on_regs (read_byte reg_b) in
  (if reg_a_val =? reg_b_val
   then modify (fun c => set_FL (Z.lor (FL c) FLAG_EQUAL) c)
   else modify (fun c => set_FL (Z.land (FL c) (Z.lnot FLAG_EQUAL)) c)) ;;
  (if reg_a_val <? reg_b_val
   then modify (fun c => set_FL (Z.lor (FL c) FLAG_LESS) c)
   else modify (fun c => set_FL (Z.land (FL c) (Z.lnot FLAG_LESS)) c)) ;;
  (if reg_a_val >? reg_b_val
   then modify (fun c => set_FL (Z.lor (FL c) FLAG_GREATER) c)
   else modify (fun c => set_FL (Z.land (FL c) (Z.lnot FLAG_GREATER)) c)).

(** *** The dispatch table *)

(** A bound method stored in the table: one that takes no argument, or one
    that takes the two register numbers. *)
Inductive handler : Type :=
  | Handler0 (f : M CPU unit)
  | Handler2 (f : Z -> Z -> M CPU unit).

(** [h()] *)
Definition call0 (h : handler) : M CPU unit :=
  match h with
  | Handler0 f => f
  | Handler2 _ =>
      raise (TypeError "missing 2 required positional arguments: 'reg_a' and 'reg_b'")
  end.

(** [h(reg_a, reg_b)] *)
Definition call2 (h : handler) (reg_a reg_b : Z) : M CPU unit :=
  match h with
  | Handler2 f => f reg_a reg_b
  | Handler0 _ =>
      raise (TypeError "takes 1 positional argument but 3 were given")
  end.

(** This table maps an instruction to its implementation. *)
Definition dispatch_table : gmap Z handler :=
  <[Op.HLT := Handler0 HLT]> (
  <[Op.PRN := Handler0 PRN]> (
  <[Op.LDI := Handler0 LDI]> (
  <[Op.PUSH := Handler0 PUSH]> (
  <[Op.POP := Handler0 POP]> (
  <[Op.MUL := Handler2 MUL]> (
  <[Op.CMP := Handler2 CMP]> (
  <[Op.JMP := Handler0 JMP]> (
  <[Op.JEQ := Handler0 JEQ]> (
  <[Op.JNE := Handler0 JNE]> ∅))))))))).

(** [self.dispatch_table[key]] *)
Definition dispatch (key : Z) : M CPU handler :=
  match dispatch_table !! key with
  | Some h => ret h
  | None => raise (KeyError key)
  end.

(** *** The constructor and [load] *)

Definition CPU_init : CPU :=
  mkCPU (Memory_init MAX_MEM)
        (fst (write_byte 7 (PyInt 0xF4) (Memory_init 8)))
        0 0 0 [].

(** The body of [load], given the integers parsed from the lines of the
    file: memory is cleared, then the values are written from address 0. *)
Fixpoint load_from (address : Z) (program : list Z) : M CPU unit :=
  match program with
  | [] => ret tt
  | data :: rest => ram_write address data ;; load_from (address + 1) rest
  end.

Definition load (program : list Z) : M CPU unit :=
  on_ram clear ;; load_from 0 program.

(** *** [alu] and [run] *)

Definition unknown_alu_msg (ir pc : Z) : string :=
  ("Unknown ALU instruction 0x" +:+ format_02X ir
   +:+ " at address 0x" +:+ format_02X pc)%string.

Definition unknown_msg (ir pc : Z) : string :=
  ("Unknown instruction 0x" +:+ format_02X ir
   +:+ " at address 0x" +:+ format_02X pc)%string.

Definition alu (op reg_a reg_b : Z) : M CPU unit :=
  try_except
    (let! c := get in
     let! h := dispatch (IR c) in
     call2 h reg_a reg_b)
    (fun e => match e with
              | KeyError _ =>
                  let! c := get in
                  print (unknown_alu_msg (IR c) (PC c)) ;;
                  HLT
              | _ => raise e
              end).

(** The decoded fields of an instruction byte, as [run] computes them. *)
Definition num_ops (ir : Z) : Z := Z.shiftr (Z.land ir 0xC0) 6.
Definition use_alu (ir : Z) : Z := Z.shiftr (Z.land ir 0x20) 5.
Definition sets_pc (ir : Z) : Z := Z.shiftr (Z.land ir 0x10) 4.
Definition insr_id (ir : Z) : Z := Z.shiftr (Z.land ir 0x0F) 0.

(** The instruction selected by the decoded ALU bit: the part of the loop
    body between the fetch and the advance of the program counter. *)
Definition execute : M CPU unit :=
  let! c := get in
  if negb (use_alu (IR c) =? 0)
  then
    let! reg_a := ram_read (PC c + 1) in
    let! reg_b := ram_read (PC c + 2) in
    alu (IR c) reg_a reg_b
  else
    try_except
      (let! h := dispatch (IR c) in call0 h)
      (fun e => match e with
                | KeyError _ =>
                    let! c := get in
                    print (unknown_msg (IR c) (PC c)) ;;
                    HLT
                | _ => raise e
                end).

(** The automatic advance of the program counter. *)
Definition advance : M CPU unit :=
  let! c := get in
  if sets_pc (IR c) =? 0
  then modify (fun c => set_PC (PC c + (1 + num_ops (IR c))) c)
  else ret tt.

(** One iteration of the [while] loop of [run]. *)
Definition cycle : M CPU unit :=
  let! c := get in
  let! ir := ram_read (PC c) in
  modify (set_IR ir) ;;
  execute ;;
  advance.

Definition running (c : CPU) : bool :=
  Z.land (FL c) FLAG_RUNNING =? FLAG_RUNNING.

(** The [while] loop of [run]; [None] when [fuel] iterations do not reach
    the end of the loop. *)
Fixpoint run_loop (fuel : nat) (c : CPU) : option (CPU * result unit) :=
  if running c then
    match fuel with
    | O => None
    | S fuel' =>
        match cycle c with
        | (c1, Ok _) => run_loop fuel' c1
        | (c1, Raise e) => Some (c1, Raise e)
        end
    end
  else Some (c, Ok tt).

Definition run (fuel : nat) (c : CPU) : option (CPU * result unit) :=
  run_loop fuel (set_FL (Z.lor (FL c) FLAG_RUNNING) c).

(** Register [r] of a machine, and the byte at a memory address. *)
Definition reg (c : CPU) (r : Z) : Z := cell (gp_registers c) r.
Definition byte_at (c : CPU) (a : Z) : Z := cell (ram c) a.

(** [FL & mask == mask], the test [run], [JEQ] and [JNE] make on a flag. *)
Definition flag_set (fl mask : Z) : bool := Z.land fl mask =? mask.

(** ** Invariants and observations used in the statements *)

(** Every cell holds an unsigned byte. *)
Definition bytes_ok (m : Memory) : Prop :=
  Forall (fun v => 0 <= v <= 255) (internal_memory m).

(** A [Memory] of capacity [sz] as the constructor and the methods leave
    it. *)
Definition mem_ok (sz : Z) (m : Memory) : Prop :=
  size m = sz /\ mem_wf m /\ bytes_ok m.

(** The machine as the constructor, [load] and [run] leave it: 256 bytes of
    main memory and a register file of 8 bytes. *)
Definition cpu_wf (c : CPU) : Prop :=
  mem_ok MAX_MEM (ram c) /\ mem_ok 8 (gp_registers c).

(** A computation that keeps a property of the state, whatever its outcome. *)
Definition preserves {S A} (P : S -> Prop) (m : M S A) : Prop :=
  forall s, P s -> P (fst (m s)).

(** A computation that leaves an observation of the state alone, whatever
    its outcome. *)
Definition stable {S A X} (f : S -> X) (m : M S A) : Prop :=
  forall s, f (fst (m s)) = f s.

(** The machine after [regs[r] = v] and after [ram[a] = v]. *)
Definition set_reg (r v : Z) (c : CPU) : CPU :=
  set_gp_registers (set_cell (gp_registers c) r v) c.
Definition set_byte (a v : Z) (c : CPU) : CPU :=
  set_ram (set_cell (ram c) a v) c.

(** A property of every call of a handler. *)
Definition handler_forall (Q : M CPU unit -> Prop) (h : handler) : Prop :=
  match h with
  | Handler0 f => Q f
  | Handler2 f => forall reg_a reg_b, Q (f reg_a reg_b)
  end.

(** The decoded fields as the specification words them, to compare with
    the masks of [run]. *)
Module Decoder.
Definition operand_count (opcode : Z) : Z := Z.land (Z.shiftr opcode 6) 3.
Definition is_alu_op (opcode : Z) : Z := Z.land (Z.shiftr opcode 5) 1.
Definition sets_pc (opcode : Z) : Z := Z.land (Z.shiftr opcode 4) 1.
Definition instruction_id (opcode : Z) : Z := Z.land opcode 15.
End Decoder.

(** The programs of the examples. *)
Definition prog_mul : list Z :=
  [0x82; 0; 8; 0x82; 1; 9; 0xA2; 0; 1; 0x47; 0; 0x01].

Definition prog_push_pop : list Z :=
  [0x82; 0; 42; 0x45; 0; 0x46; 1].

Definition loaded (program : list Z) : CPU := fst (load program CPU_init).

(** ** [load] from the text of the file *)

(** The text of a line is ASCII text, one character per byte; what [int]
    does with other text is left out, and the statements that depend on it
    say so. *)
Definition ascii_text (s : list ascii) : Prop :=
  Forall (fun ch => Z.of_nat (nat_of_ascii ch) < 128) s.

(** The white space that [int] skips around the digits of ASCII text: the
    space and the five control characters from tab to carriage return. *)
Definition is_space (c : ascii) : bool :=
  let n := Z.of_nat (nat_of_ascii c) in
  (n =? 32) || ((9 <=? n) && (n <=? 13)).

Fixpoint lstrip (s : list ascii) : list ascii :=
  match s with
  | c :: s' => if is_space c then lstrip s' else s
  | [] => []
  end.

Definition strip (s : list ascii) : list ascii :=
  rev (lstrip (rev (lstrip s))).

(** [line.split("#")[0]]: the text before the first ['#']. *)
Fixpoint before_hash (s : list ascii) : list ascii :=
  match s with
  | [] => []
  | c :: s' =>
      if Z.of_nat (nat_of_ascii c) =? 35 then [] else c :: before_hash s'
  end.

(** The value of a character as a digit in some base: ['0'-'9'], then the
    letters of either case from 10 on. *)
Definition digit_value (c : ascii) : option Z :=
  let n := Z.of_nat (nat_of_ascii c) in
  if (48 <=? n) && (n <=? 57) then Some (n - 48)
  else if (97 <=? n) && (n <=? 122) then Some (n - 87)
  else if (65 <=? n) && (n <=? 90) then Some (n - 55)
  else None.

(** The digits of a literal in base [base], a single underscore allowed
    between two digits. *)
Fixpoint parse_digits_base (base : Z) (s : list ascii) (acc : Z)
         (after_digit : bool) : option Z :=
  match s with
  | [] => if after_digit then Some acc else None
  | c :: s' =>
      match digit_value c with
      | Some d =>
          if d <? base then parse_digits_base base s' (base * acc + d) true
          else None
      | None =>
          if (Z.of_nat (nat_of_ascii c) =? 95) && after_digit
          then parse_digits_base base s' acc false
          else None
      end
  end.

(** The optional ["0b"] or ["0B"] of a base-2 literal, and the one
    underscore allowed right after it. *)
Definition skip_0b (s : list ascii) : list ascii :=
  match s with
  | c0 :: c1 :: rest =>
      let n1 := Z.of_nat (nat_of_ascii c1) in
      if (Z.of_nat (nat_of_ascii c0) =? 48) && ((n1 =? 98) || (n1 =? 66))
      then match rest with
           | u :: rest' =>
               if Z.of_nat (nat_of_ascii u) =? 95 then rest' else rest
           | [] => rest
           end
      else s
  | _ => s
  end.

(** [int(text, 2)] for ASCII text: white space around, an optional sign,
    an optional ["0b"], binary digits.  [None] stands for the
    [ValueError]. *)
Definition parse_int_base2 (s : list ascii) : option Z :=
  match strip s with
  | c :: s' =>
      let n := Z.of_nat (nat_of_ascii c) in
      if n =? 45 then Z.opp <$> parse_digits_base 2 (skip_0b s') 0 false
      else if n =? 43 then parse_digits_base 2 (skip_0b s') 0 false
      else parse_digits_base 2 (skip_0b (c :: s')) 0 false
  | [] => None
  end.

(** What [load] reads from one line of the file, if anything. *)
Definition parse_line (line : string) : option Z :=
  parse_int_base2 (before_hash (list_ascii_of_string line)).

(** The loop of [load] over the lines of the file: a line that does not
    parse is skipped and does not use up an address. *)
Fixpoint load_lines_from (address : Z) (lines : list string) : M CPU unit :=
  match lines with
  | [] => ret tt
  | line :: rest =>
      match parse_line line with
      | None => load_lines_from address rest
      | Some data =>
          ram_write address data ;; load_lines_from (address + 1) rest
      end
  end.

(** [load], given the lines of the opened file. *)
Definition load_lines (lines : list string) : M CPU unit :=
  on_ram clear ;; load_lines_from 0 lines.

(** ** [trace] *)

(** ["%X" % n] *)
Definition format_X (n : Z) : string :=
  if n <? 0 then ("-" +:+ hex_digits (Z.to_nat (Z.log2 (- n))) (- n))%string
  else hex_digits (Z.to_nat (Z.log2 n)) n.

(** The machine together with the history that [trace] keeps. *)
Record Tracer : Type := mkTracer {
  machine : CPU;
  trace_history : list string
}.

(** A method of the CPU that does not touch [trace_history]. *)
Definition on_machine {A} (m : M CPU A) : M Tracer A :=
  fun t => let (c, x) := m (machine t) in (mkTracer c (trace_history t), x).

(** The header line: the pieces printed with [end=''] and the closing
    [print()]. *)
Definition trace_header : string :=
  ("PC | IN P1 P2 |"
   +:+ fold_left (fun acc i => acc +:+ " R" +:+ format_X i) (seqZ 0 8) ""
   +:+ " | FL")%string.

Definition trace_splitter : string :=
  "--------------------------------------------".

(** [for i in range(8): trace_info += " %02X" % self.gp_registers.read_byte(i)] *)
Fixpoint trace_registers (regs : list Z) (trace_info : string)
  : M Tracer string :=
  match regs with
  | [] => ret trace_info
  | i :: rest =>
      let! v := on_machine (on_regs (read_byte i)) in
      trace_registers rest (trace_info +:+ " " +:+ format_02X v)%string
  end.

(** [for line in lines: print(line, end=''); print()] *)
Fixpoint print_lines (lines : list string) : M Tracer unit :=
  match lines with
  | [] => ret tt
  | line :: rest => on_machine (print line) ;; print_lines rest
  end.

(** [lst[-n:]] for a positive [n]. *)
Definition last_n {A} (n : nat) (l : list A) : list A :=
  drop (length l - n) l.

Definition trace : M Tracer unit :=
  on_machine (print trace_header) ;;
  on_machine (print trace_splitter) ;;
  let! t := get in
  let pc := PC (machine t) in
  let! b0 := on_machine (ram_read pc) in
  let! b1 := on_machine (ram_read (pc + 1)) in
  let! b2 := on_machine (ram_read (pc + 2)) in
  let trace_info :=
    (format_02X pc +:+ " | " +:+ format_02X b0 +:+ " " +:+ format_02X b1
     +:+ " " +:+ format_02X b2 +:+ " |")%string in
  let! trace_info := trace_registers (seqZ 0 8) trace_info in
  let! t := get in
  let trace_info := (trace_info +:+ " | " +:+ format_02X (FL (machine t)))%string in
  modify (fun t => mkTracer (machine t) (trace_history t ++ [trace_info])) ;;
  let! t := get in
  let last_5_traces := last_n 5 (trace_history t) in
  print_lines last_5_traces ;;
  on_machine (print "").

(** The main memory that holds [bytes] from address 0 and zeros after
    them. *)
Definition ram_image (bytes : list Z) : Memory :=
  mkMemory MAX_MEM
           (bytes ++ replicate (Z.to_nat MAX_MEM - length bytes)%nat 0).

Definition is_byte (v : Z) : Prop := 0 <= v <= 255.

(** Bit 7 of the flags register. *)
Definition on_bit (c : CPU) : bool := Z.testbit (FL c) 7.

(** The text of a list of binary digits, most significant first, and the
    number it denotes. *)
Definition bit_char (b : bool) : ascii := if b then "1"%char else "0"%char.
Definition bits_value (bits : list bool) : Z :=
  fold_left (fun acc b => 2 * acc + Z.b2z b) bits 0.

(** The line that [trace] records for a machine: PC, the three bytes at PC,
    the eight registers and the flags, in two-digit hexadecimal. *)
Definition trace_line (c : CPU) : string :=
  (fold_left (fun acc i => acc +:+ " " +:+ format_02X (reg c i)) (seqZ 0 8)
     (format_02X (PC c) +:+ " | " +:+ format_02X (byte_at c (PC c))
      +:+ " " +:+ format_02X (byte_at c (PC c + 1))
      +:+ " " +:+ format_02X (byte_at c (PC c + 2)) +:+ " |")
   +:+ " | " +:+ format_02X (FL c))%string.

(** What [trace] does not print to: everything of the machine but its
    output. *)
Definition machine_state (t : Tracer)
  : Memory * Memory * Z * Z * Z :=
  (ram (machine t), gp_registers (machine t), PC (machine t),
   IR (machine t), FL (machine t)).

(** The history of the second tracer is the history of the first, with
    possibly more at the end. *)
Definition history_extends (t t' : Tracer) : Prop :=
  exists added, trace_history t' = trace_history t ++ added.

(** Whatever its outcome, the computation takes a state to a related one. *)
Definition steps_within {S A} (R : S -> S -> Prop) (m : M S A) : Prop :=
  forall s, R s (fst (m s)).

(** ** Outcomes of a computation *)

(** From a state with [P], the computation keeps [P] and raises nothing
    outside [E]. *)
Definition raises_only {S A} (P : S -> Prop) (E : exn -> Prop) (m : M S A)
  : Prop :=
  forall s, P s ->
    P (fst (m s)) /\ forall e, snd (m s) = Raise e -> E e.

(** The two errors of the machine. *)
Definition machine_error (e : exn) : Prop :=
  e = out_of_bounds \/ e = not_a_byte.

(** When the computation raises, the observation is what it was. *)
Definition kept_on_raise {S A X} (f : S -> X) (m : M S A) : Prop :=
  forall s s' e, m s = (s', Raise e) -> f s' = f s.

(** The computation always returns. *)
Definition never_raises {S A} (m : M S A) : Prop :=
  forall s, exists s' a, m s = (s', Ok a).

(** ** Facts about the monad *)

Section MonadFacts.
Context {S A B : Type}.
Implicit Types (m : M S A) (k : A -> M S B).

Lemma bind_ok m k s s1 a : m s = (s1, Ok a) -> bind m k s = k a s1.
Proof. intros H. unfold bind. now rewrite H. Qed.

Lemma bind_raise m k s s1 e :
  m s = (s1, Raise e) -> bind m k s = (s1, Raise e).
Proof. intros H. unfold bind. now rewrite H. Qed.

Lemma bind_inv m k s s2 (b : B) :
  bind m k s = (s2, Ok b) ->
  exists s1 a, m s = (s1, Ok a) /\ k a s1 = (s2, Ok b).
Proof.
  unfold bind. destruct (m s) as [s1 [a | e]]; intros H.
  - now exists s1, a.
  - discriminate.
Qed.
End MonadFacts.

Lemma bind_get {S B} (k : S -> M S B) s : bind get k s = k s s.
Proof. reflexivity. Qed.

(** ** Invariance and stability through the combinators *)

Section Preservation.
Context {S : Type} (P : S -> Prop).

Lemma preserves_ret {A} (a : A) : preserves P (ret a).
Proof. now intros s. Qed.

Lemma preserves_raise {A} e : preserves P (@raise S A e).
Proof. now intros s. Qed.

Lemma preserves_get : preserves P get.
Proof. now intros s. Qed.

Lemma preserves_lift_result {A} (r : result A) :
  preserves P (lift_result r).
Proof. now intros s. Qed.

Lemma preserves_modify (f : S -> S) :
  (forall s, P s -> P (f s)) -> preserves P (modify f).
Proof. intros H s. apply H. Qed.

Lemma preserves_bind {A B} (m : M S A) (k : A -> M S B) :
  preserves P m -> (forall a, preserves P (k a)) -> preserves P (bind m k).
Proof.
  intros Hm Hk s Hs. unfold bind.
  specialize (Hm s Hs). destruct (m s) as [s1 [a | e]]; simpl in *.
  - now apply Hk.
  - assumption.
Qed.

Lemma preserves_try_except {A} (m : M S A) (h : exn -> M S A) :
  preserves P m -> (forall e, preserves P (h e)) ->
  preserves P (try_except m h).
Proof.
  intros Hm Hh s Hs. unfold try_except.
  specialize (Hm s Hs). destruct (m s) as [s1 [a | e]]; simpl in *.
  - assumption.
  - now apply Hh.
Qed.

Lemma preserves_if {A} (b : bool) (m1 m2 : M S A) :
  preserves P m1 -> preserves P m2 -> preserves P (if b then m1 else m2).
Proof. now destruct b. Qed.
End Preservation.

Section Stability.
Context {S X : Type} (f : S -> X).

Lemma stable_ret {A} (a : A) : stable f (ret a).
Proof. now intros s. Qed.

Lemma stable_raise {A} e : stable f (@raise S A e).
Proof. now intros s. Qed.

Lemma stable_get : stable f get.
Proof. now intros s. Qed.

Lemma stable_lift_result {A} (r : result A) : stable f (lift_result r).
Proof. now intros s. Qed.

Lemma stable_modify (g : S -> S) :
  (forall s, f (g s) = f s) -> stable f (modify g).
Proof. intros H s. apply H. Qed.

Lemma stable_bind {A B} (m : M S A) (k : A -> M S B) :
  stable f m -> (forall a, stable f (k a)) -> stable f (bind m k).
Proof.
  intros Hm Hk s. unfold bind.
  specialize (Hm s). destruct (m s) as [s1 [a | e]]; simpl in *.
  - now rewrite Hk.
  - assumption.
Qed.

Lemma stable_try_except {A} (m : M S A) (h : exn -> M S A) :
  stable f m -> (forall e, stable f (h e)) -> stable f (try_except m h).
Proof.
  intros Hm Hh s. unfold try_except.
  specialize (Hm s). destruct (m s) as [s1 [a | e]]; simpl in *.
  - assumption.
  - now rewrite Hh.
Qed.

Lemma stable_if {A} (b : bool) (m1 m2 : M S A) :
  stable f m1 -> stable f m2 -> stable f (if b then m1 else m2).
Proof. now destruct b. Qed.
End Stability.

Create HintDb py discriminated.
#[export] Hint Resolve preserves_ret preserves_raise preserves_get
  preserves_lift_result preserves_bind preserves_try_except preserves_if
  stable_ret stable_raise stable_get stable_lift_result stable_bind
  stable_try_except stable_if : py.

(** ** Facts about [Memory] *)

Section MemoryFacts.
Implicit Types (m : Memory) (a v : Z).

Lemma mem_wf_init sz : mem_wf (Memory_init sz).
Proof.
  unfold mem_wf, Memory_init, clear, modify, list_repeat0. simpl.
  rewrite length_replicate. lia.
Qed.

Lemma size_init sz : size (Memory_init sz) = sz.
Proof. reflexivity. Qed.

Lemma mem_wf_set_cell m a v : mem_wf m -> mem_wf (set_cell m a v).
Proof. unfold mem_wf, set_cell. simpl. now rewrite length_insert. Qed.

Lemma cell_set_cell_eq m a v :
  mem_wf m -> 0 <= a < size m -> cell (set_cell m a v) a = v.
Proof.
  unfold mem_wf, cell, set_cell. intros Hwf Ha. simpl.
  rewrite list_lookup_insert_eq; [reflexivity | lia].
Qed.

Lemma cell_set_cell_ne m a b v :
  0 <= a -> 0 <= b -> a <> b -> cell (set_cell m a v) b = cell m b.
Proof.
  unfold cell, set_cell. intros Ha Hb Hab. simpl.
  rewrite list_lookup_insert_ne; [reflexivity | lia].
Qed.

Lemma in_bounds_test m a :
  0 <= a < size m -> (a <? 0) || (a >? size m - 1) = false.
Proof. intros H. rewrite Z.gtb_ltb. apply orb_false_intro; lia. Qed.

Lemma out_of_bounds_test m a :
  a < 0 \/ size m <= a -> (a <? 0) || (a >? size m - 1) = true.
Proof. intros H. rewrite Z.gtb_ltb. apply orb_true_iff. lia. Qed.

Lemma list_get_cell m a :
  mem_wf m -> 0 <= a < size m ->
  list_get (internal_memory m) a = Ok (cell m a).
Proof.
  unfold mem_wf, list_get, cell. intros Hwf Ha.
  destruct (internal_memory m !! Z.to_nat a) as [v |] eqn:E;
    [reflexivity |].
  apply lookup_ge_None in E. lia.
Qed.

Lemma read_byte_ok m a :
  mem_wf m -> 0 <= a < size m -> read_byte a m = (m, Ok (cell m a)).
Proof.
  intros Hwf Ha. unfold read_byte. rewrite bind_get.
  rewrite in_bounds_test by assumption.
  unfold lift_result. now rewrite list_get_cell.
Qed.

Lemma read_byte_out_of_bounds m a :
  a < 0 \/ size m <= a -> read_byte a m = (m, Raise out_of_bounds).
Proof.
  intros Ha. unfold read_byte. rewrite bind_get.
  now rewrite out_of_bounds_test.
Qed.

(** A read never changes the memory. *)
Lemma read_byte_pure m a : fst (read_byte a m) = m.
Proof.
  unfold read_byte. rewrite bind_get.
  now destruct ((a <? 0) || (a >? size m - 1)).
Qed.

Lemma write_byte_out_of_bounds m a data :
  a < 0 \/ size m <= a -> write_byte a data m = (m, Raise out_of_bounds).
Proof.
  intros Ha. unfold write_byte. rewrite bind_get.
  now rewrite out_of_bounds_test.
Qed.

(** The three outcomes of a write at a valid address, by what [int(data)]
    does. *)
Lemma write_byte_stores m a data v :
  mem_wf m -> 0 <= a < size m -> py_int data = Ok v -> 0 <= v <= 255 ->
  write_byte a data m = (set_cell m a v, Ok tt).
Proof.
  intros Hwf Ha Hint Hv. unfold write_byte. rewrite bind_get.
  rewrite in_bounds_test by assumption.
  unfold try_except, bind, lift_result. rewrite Hint.
  replace (v >? 255) with false by (symmetry; rewrite Z.gtb_ltb; lia).
  replace (v <? 0) with false by lia.
  unfold list_set. unfold mem_wf in Hwf.
  destruct (decide (Z.to_nat a < length (internal_memory m))%nat);
    [reflexivity | lia].
Qed.

Lemma write_byte_range_error m a data v :
  0 <= a < size m -> py_int data = Ok v -> v < 0 \/ 255 < v ->
  write_byte a data m = (m, Raise not_a_byte).
Proof.
  intros Ha Hint Hv. unfold write_byte. rewrite bind_get.
  rewrite in_bounds_test by assumption.
  unfold try_except, bind, lift_result. rewrite Hint.
  destruct (v >? 255) eqn:E1; [reflexivity |].
  rewrite Z.gtb_ltb in E1.
  replace (v <? 0) with true by lia. reflexivity.
Qed.

Lemma write_byte_int_TypeError m a data msg :
  0 <= a < size m -> py_int data = Raise (TypeError msg) ->
  write_byte a data m = (m, Raise not_a_byte).
Proof.
  intros Ha Hint. unfold write_byte. rewrite bind_get.
  rewrite in_bounds_test by assumption.
  unfold try_except, bind, lift_result. now rewrite Hint.
Qed.

Lemma write_byte_int_other_error m a data e :
  0 <= a < size m -> py_int data = Raise e ->
  (forall msg, e <> TypeError msg) ->
  write_byte a data m = (m, Raise e).
Proof.
  intros Ha Hint He. unfold write_byte. rewrite bind_get.
  rewrite in_bounds_test by assumption.
  unfold try_except, bind, lift_result. rewrite Hint.
  destruct e; try reflexivity. now destruct (He msg).
Qed.

(** Whatever a write does, the memory it leaves is the old one or the old
    one with a byte stored at the address. *)
Lemma write_byte_cases m a data :
  fst (write_byte a data m) = m \/
  exists v, 0 <= v <= 255 /\ 0 <= a < size m /\
            write_byte a data m = (set_cell m a v, Ok tt).
Proof.
  unfold write_byte. rewrite bind_get.
  destruct ((a <? 0) || (a >? size m - 1)) eqn:Eb; [now left |].
  apply orb_false_elim in Eb as [Eb1 Eb2]. rewrite Z.gtb_ltb in Eb2.
  unfold try_except, bind, lift_result.
  destruct (py_int data) as [v | e]; [| left; now destruct e].
  destruct (v >? 255) eqn:E1; [now left |].
  destruct (v <? 0) eqn:E2; [now left |].
  rewrite Z.gtb_ltb in E1.
  unfold list_set.
  destruct (decide (Z.to_nat a < length (internal_memory m))%nat);
    [| now left].
  right. exists v. repeat split; lia.
Qed.
End MemoryFacts.

(** ** Facts about the machine state *)

Section CPUFacts.
Implicit Types (c : CPU) (a r v : Z).

Lemma bytes_ok_cell m a : bytes_ok m -> 0 <= cell m a <= 255.
Proof.
  unfold bytes_ok, cell. intros H.
  destruct (internal_memory m !! Z.to_nat a) as [v |] eqn:E; simpl;
    [| lia].
  exact (Forall_lookup_1 _ _ _ _ H E).
Qed.

Lemma mem_ok_set_cell sz m a v :
  mem_ok sz m -> 0 <= v <= 255 -> mem_ok sz (set_cell m a v).
Proof.
  intros (Hs & Hwf & Hb) Hv. repeat split.
  - assumption.
  - now apply mem_wf_set_cell.
  - unfold bytes_ok, set_cell. simpl. now apply Forall_insert.
Qed.

Lemma mem_ok_init sz : mem_ok sz (Memory_init sz).
Proof.
  repeat split.
  - apply mem_wf_init.
  - unfold bytes_ok, Memory_init, clear, modify, list_repeat0. simpl.
    apply Forall_replicate. lia.
Qed.

Lemma reg_bounds c r : cpu_wf c -> 0 <= reg c r <= 255.
Proof. intros (_ & _ & _ & H). now apply bytes_ok_cell. Qed.

Lemma byte_at_bounds c a : cpu_wf c -> 0 <= byte_at c a <= 255.
Proof. intros ((_ & _ & H) & _). now apply bytes_ok_cell. Qed.

Lemma set_ram_id c : set_ram (ram c) c = c.
Proof. now destruct c. Qed.

Lemma set_gp_registers_id c : set_gp_registers (gp_registers c) c = c.
Proof. now destruct c. Qed.

Lemma ram_read_ok c a :
  cpu_wf c -> 0 <= a <= 255 -> ram_read a c = (c, Ok (byte_at c a)).
Proof.
  intros ((Hs & Hwf & _) & _) Ha. unfold ram_read, on_ram.
  rewrite read_byte_ok by (try assumption; rewrite Hs; unfold MAX_MEM; lia).
  now rewrite set_ram_id.
Qed.

Lemma ram_read_out_of_bounds c a :
  cpu_wf c -> a < 0 \/ 255 < a -> ram_read a c = (c, Raise out_of_bounds).
Proof.
  intros ((Hs & _) & _) Ha. unfold ram_read, on_ram.
  rewrite read_byte_out_of_bounds by (rewrite Hs; unfold MAX_MEM; lia).
  now rewrite set_ram_id.
Qed.

Lemma reg_read_ok c r :
  cpu_wf c -> 0 <= r <= 7 ->
  on_regs (read_byte r) c = (c, Ok (reg c r)).
Proof.
  intros (_ & Hs & Hwf & _) Hr. unfold on_regs.
  rewrite read_byte_ok by (try assumption; lia).
  now rewrite set_gp_registers_id.
Qed.

Lemma reg_read_out_of_bounds c r :
  cpu_wf c -> r < 0 \/ 7 < r ->
  on_regs (read_byte r) c = (c, Raise out_of_bounds).
Proof.
  intros (_ & Hs & _) Hr. unfold on_regs.
  rewrite read_byte_out_of_bounds by lia.
  now rewrite set_gp_registers_id.
Qed.

Lemma reg_write_ok c r v :
  cpu_wf c -> 0 <= r <= 7 -> 0 <= v <= 255 ->
  on_regs (write_byte r (PyInt v)) c = (set_reg r v c, Ok tt).
Proof.
  intros (_ & Hs & Hwf & _) Hr Hv. unfold on_regs.
  now rewrite (write_byte_stores _ _ _ v)
    by (try assumption; try reflexivity; lia).
Qed.

Lemma reg_write_range_error c r v :
  cpu_wf c -> 0 <= r <= 7 -> v < 0 \/ 255 < v ->
  on_regs (write_byte r (PyInt v)) c = (c, Raise not_a_byte).
Proof.
  intros (_ & Hs & _) Hr Hv. unfold on_regs.
  rewrite (write_byte_range_error _ _ _ v) by (try reflexivity; lia).
  now rewrite set_gp_registers_id.
Qed.

Lemma ram_write_ok c a v :
  cpu_wf c -> 0 <= a <= 255 -> 0 <= v <= 255 ->
  ram_write a v c = (set_byte a v c, Ok tt).
Proof.
  intros ((Hs & Hwf & _) & _) Ha Hv. unfold ram_write, on_ram.
  now rewrite (write_byte_stores _ _ _ v)
    by (try assumption; try reflexivity; rewrite Hs; unfold MAX_MEM; lia).
Qed.

Lemma get_SP_ok c : cpu_wf c -> get_SP c = (c, Ok (reg c 7)).
Proof. intros H. apply reg_read_ok; [assumption | lia]. Qed.

Lemma set_SP_ok c v :
  cpu_wf c -> 0 <= v <= 255 -> set_SP v c = (set_reg 7 v c, Ok tt).
Proof. intros H Hv. apply reg_write_ok; [assumption | lia | assumption]. Qed.

Lemma set_SP_range_error c v :
  cpu_wf c -> v < 0 \/ 255 < v -> set_SP v c = (c, Raise not_a_byte).
Proof. intros H Hv. apply reg_write_range_error; [assumption | lia | assumption]. Qed.

(** The well-formed machine under the updates of the handlers. *)
Lemma cpu_wf_set_reg c r v :
  cpu_wf c -> 0 <= v <= 255 -> cpu_wf (set_reg r v c).
Proof.
  intros (Hram & Hregs) Hv. split; [exact Hram |].
  now apply mem_ok_set_cell.
Qed.

Lemma cpu_wf_set_byte c a v :
  cpu_wf c -> 0 <= v <= 255 -> cpu_wf (set_byte a v c).
Proof.
  intros (Hram & Hregs) Hv. split; [| exact Hregs].
  now apply mem_ok_set_cell.
Qed.

Lemma cpu_wf_set_PC c v : cpu_wf c -> cpu_wf (set_PC v c).
Proof. now intros H. Qed.

Lemma cpu_wf_set_IR c v : cpu_wf c -> cpu_wf (set_IR v c).
Proof. now intros H. Qed.

Lemma cpu_wf_set_FL c v : cpu_wf c -> cpu_wf (set_FL v c).
Proof. now intros H. Qed.

Lemma cpu_wf_set_stdout c (out : list string) :
  cpu_wf c -> cpu_wf (set_stdout out c).
Proof. now intros H. Qed.

Lemma cpu_wf_init : cpu_wf CPU_init.
Proof.
  split; [apply mem_ok_init |].
  unfold CPU_init, gp_registers.
  rewrite (write_byte_stores _ _ _ 0xF4)
    by (try apply mem_wf_init; try reflexivity; simpl; lia).
  apply mem_ok_set_cell; [apply mem_ok_init | lia].
Qed.

(** Registers and memory bytes after an update. *)
Lemma reg_set_reg_eq c r v :
  cpu_wf c -> 0 <= r <= 7 -> reg (set_reg r v c) r = v.
Proof.
  intros (_ & Hs & Hwf & _) Hr. unfold reg, set_reg. simpl.
  apply cell_set_cell_eq; [assumption | lia].
Qed.

Lemma reg_set_reg_ne c r r' v :
  0 <= r -> 0 <= r' -> r <> r' -> reg (set_reg r v c) r' = reg c r'.
Proof. intros. unfold reg, set_reg. simpl. now apply cell_set_cell_ne. Qed.

Lemma byte_at_set_byte_eq c a v :
  cpu_wf c -> 0 <= a <= 255 -> byte_at (set_byte a v c) a = v.
Proof.
  intros ((Hs & Hwf & _) & _) Ha. unfold byte_at, set_byte. simpl.
  apply cell_set_cell_eq; [assumption |].
  rewrite Hs. unfold MAX_MEM. lia.
Qed.

Lemma byte_at_set_byte_ne c a a' v :
  0 <= a -> 0 <= a' -> a <> a' -> byte_at (set_byte a v c) a' = byte_at c a'.
Proof.
  intros. unfold byte_at, set_byte. simpl. now apply cell_set_cell_ne.
Qed.
End CPUFacts.

(** ** The machine invariant and the registers the handlers leave alone *)

Section Invariants.
Lemma preserves_read_byte sz a : preserves (mem_ok sz) (read_byte a).
Proof. intros m H. now rewrite read_byte_pure. Qed.

Lemma preserves_write_byte sz a data :
  preserves (mem_ok sz) (write_byte a data).
Proof.
  intros m H.
  destruct (write_byte_cases m a data) as [-> | (v & Hv & _ & ->)];
    [assumption |].
  now apply mem_ok_set_cell.
Qed.

Lemma preserves_clear sz : preserves (mem_ok sz) clear.
Proof.
  intros m (Hs & _ & _). rewrite <- Hs. apply (mem_ok_init (size m)).
Qed.

Lemma preserves_on_ram {A} (m : M Memory A) :
  preserves (mem_ok MAX_MEM) m -> preserves cpu_wf (on_ram m).
Proof.
  intros Hm c (Hram & Hregs). unfold on_ram.
  specialize (Hm (ram c) Hram). destruct (m (ram c)) as [r x].
  now split.
Qed.

Lemma preserves_on_regs {A} (m : M Memory A) :
  preserves (mem_ok 8) m -> preserves cpu_wf (on_regs m).
Proof.
  intros Hm c (Hram & Hregs). unfold on_regs.
  specialize (Hm (gp_registers c) Hregs).
  destruct (m (gp_registers c)) as [r x]. now split.
Qed.

Lemma preserves_modify_fields (g : CPU -> CPU) :
  (forall c, ram (g c) = ram c) ->
  (forall c, gp_registers (g c) = gp_registers c) ->
  preserves cpu_wf (modify g).
Proof.
  intros H1 H2 c Hc. unfold modify, cpu_wf. simpl. now rewrite H1, H2.
Qed.

(** [on_ram] and [on_regs] touch one field only. *)
Lemma stable_on_ram {A X} (f : CPU -> X) (m : M Memory A) :
  (forall r c, f (set_ram r c) = f c) -> stable f (on_ram m).
Proof.
  intros H c. unfold on_ram. destruct (m (ram c)) as [r x]. apply H.
Qed.

Lemma stable_on_regs {A X} (f : CPU -> X) (m : M Memory A) :
  (forall r c, f (set_gp_registers r c) = f c) -> stable f (on_regs m).
Proof.
  intros H c. unfold on_regs. destruct (m (gp_registers c)) as [r x].
  apply H.
Qed.
End Invariants.

#[export] Hint Resolve preserves_read_byte preserves_write_byte
  preserves_clear preserves_on_ram preserves_on_regs : py.
#[export] Hint Extern 1 (preserves cpu_wf (modify _)) =>
  apply preserves_modify_fields; reflexivity : py.
#[export] Hint Extern 1 (stable _ (on_ram _)) =>
  apply stable_on_ram; reflexivity : py.
#[export] Hint Extern 1 (stable _ (on_regs _)) =>
  apply stable_on_regs; reflexivity : py.
#[export] Hint Extern 1 (stable _ (modify _)) =>
  apply stable_modify; reflexivity : py.

(** Unfold one layer of the machine's methods, then decide by the
    combinators. *)
Ltac by_combinators :=
  unfold alu, advance;
  unfold JEQ, JNE;
  unfold HLT, LDI, PRN, PUSH, POP, JMP, MUL, CMP;
  unfold get_SP, set_SP, ram_read, ram_write, print;
  auto 30 with py.

Section HandlerInvariants.
Lemma preserves_HLT : preserves cpu_wf HLT.
Proof. by_combinators. Qed.
Lemma preserves_LDI : preserves cpu_wf LDI.
Proof. by_combinators. Qed.
Lemma preserves_PRN : preserves cpu_wf PRN.
Proof. by_combinators. Qed.
Lemma preserves_PUSH : preserves cpu_wf PUSH.
Proof. by_combinators. Qed.
Lemma preserves_POP : preserves cpu_wf POP.
Proof. by_combinators. Qed.
Lemma preserves_JMP : preserves cpu_wf JMP.
Proof. by_combinators. Qed.
Lemma preserves_JEQ : preserves cpu_wf JEQ.
Proof. by_combinators. Qed.
Lemma preserves_JNE : preserves cpu_wf JNE.
Proof. by_combinators. Qed.
Lemma preserves_MUL a b : preserves cpu_wf (MUL a b).
Proof. by_combinators. Qed.
Lemma preserves_CMP a b : preserves cpu_wf (CMP a b).
Proof. by_combinators. Qed.

(** No handler writes the instruction register. *)
Lemma stable_IR_HLT : stable IR HLT.
Proof. by_combinators. Qed.
Lemma stable_IR_LDI : stable IR LDI.
Proof. by_combinators. Qed.
Lemma stable_IR_PRN : stable IR PRN.
Proof. by_combinators. Qed.
Lemma stable_IR_PUSH : stable IR PUSH.
Proof. by_combinators. Qed.
Lemma stable_IR_POP : stable IR POP.
Proof. by_combinators. Qed.
Lemma stable_IR_JMP : stable IR JMP.
Proof. by_combinators. Qed.
Lemma stable_IR_JEQ : stable IR JEQ.
Proof. by_combinators. Qed.
Lemma stable_IR_JNE : stable IR JNE.
Proof. by_combinators. Qed.
Lemma stable_IR_MUL a b : stable IR (MUL a b).
Proof. by_combinators. Qed.
Lemma stable_IR_CMP a b : stable IR (CMP a b).
Proof. by_combinators. Qed.

(** Only the three jumps write the program counter. *)
Lemma stable_PC_HLT : stable PC HLT.
Proof. by_combinators. Qed.
Lemma stable_PC_LDI : stable PC LDI.
Proof. by_combinators. Qed.
Lemma stable_PC_PRN : stable PC PRN.
Proof. by_combinators. Qed.
Lemma stable_PC_PUSH : stable PC PUSH.
Proof. by_combinators. Qed.
Lemma stable_PC_POP : stable PC POP.
Proof. by_combinators. Qed.
Lemma stable_PC_MUL a b : stable PC (MUL a b).
Proof. by_combinators. Qed.
Lemma stable_PC_CMP a b : stable PC (CMP a b).
Proof. by_combinators. Qed.
End HandlerInvariants.

(** ** The dispatch table *)

Section DispatchFacts.
(** The table has the ten instructions and nothing else. *)
Lemma dispatch_table_cases (k : Z) (h : handler) :
  dispatch_table !! k = Some h ->
  (k, h) ∈ [ (Op.HLT, Handler0 HLT); (Op.PRN, Handler0 PRN);
             (Op.LDI, Handler0 LDI); (Op.PUSH, Handler0 PUSH);
             (Op.POP, Handler0 POP); (Op.MUL, Handler2 MUL);
             (Op.CMP, Handler2 CMP); (Op.JMP, Handler0 JMP);
             (Op.JEQ, Handler0 JEQ); (Op.JNE, Handler0 JNE) ].
Proof.
  unfold dispatch_table. intros H.
  repeat (rewrite lookup_insert in H; case_decide;
          [injection H as <-; subst k; set_solver |]).
  now rewrite lookup_empty in H.
Qed.

Lemma dispatch_table_forall (Q : Z -> handler -> Prop) :
  Q Op.HLT (Handler0 HLT) -> Q Op.PRN (Handler0 PRN) ->
  Q Op.LDI (Handler0 LDI) -> Q Op.PUSH (Handler0 PUSH) ->
  Q Op.POP (Handler0 POP) -> Q Op.MUL (Handler2 MUL) ->
  Q Op.CMP (Handler2 CMP) -> Q Op.JMP (Handler0 JMP) ->
  Q Op.JEQ (Handler0 JEQ) -> Q Op.JNE (Handler0 JNE) ->
  forall k h, dispatch_table !! k = Some h -> Q k h.
Proof.
  intros ? ? ? ? ? ? ? ? ? ? k h H.
  apply dispatch_table_cases in H.
  repeat (apply elem_of_cons in H as [[= -> ->] | H]; [assumption |]).
  now apply elem_of_nil in H.
Qed.

(** The handlers of the opcodes whose ALU bit is set, and only they, take
    the two register numbers: no call has the wrong number of
    arguments. *)
Lemma dispatch_table_arity k h :
  dispatch_table !! k = Some h ->
  match h with
  | Handler0 _ => use_alu k = 0
  | Handler2 _ => use_alu k = 1
  end.
Proof.
  revert k h.
  apply (dispatch_table_forall
           (fun k h => match h with
                       | Handler0 _ => use_alu k = 0
                       | Handler2 _ => use_alu k = 1
                       end)); reflexivity.
Qed.

Lemma dispatch_table_preserves k h :
  dispatch_table !! k = Some h -> handler_forall (preserves cpu_wf) h.
Proof.
  revert k h.
  apply (dispatch_table_forall
           (fun _ h => handler_forall (preserves cpu_wf) h)); simpl;
    auto using preserves_HLT, preserves_PRN, preserves_LDI, preserves_PUSH,
      preserves_POP, preserves_MUL, preserves_CMP, preserves_JMP,
      preserves_JEQ, preserves_JNE.
Qed.

Lemma dispatch_table_stable_IR k h :
  dispatch_table !! k = Some h -> handler_forall (stable IR) h.
Proof.
  revert k h.
  apply (dispatch_table_forall (fun _ h => handler_forall (stable IR) h));
    simpl;
    auto using stable_IR_HLT, stable_IR_PRN, stable_IR_LDI, stable_IR_PUSH,
      stable_IR_POP, stable_IR_MUL, stable_IR_CMP, stable_IR_JMP,
      stable_IR_JEQ, stable_IR_JNE.
Qed.

(** The handlers of the opcodes whose bit 4 is clear leave PC alone. *)
Lemma dispatch_table_stable_PC k h :
  dispatch_table !! k = Some h -> sets_pc k = 0 ->
  handler_forall (stable PC) h.
Proof.
  revert k h.
  apply (dispatch_table_forall
           (fun k h => sets_pc k = 0 -> handler_forall (stable PC) h));
    simpl;
    auto using stable_PC_HLT, stable_PC_PRN, stable_PC_LDI, stable_PC_PUSH,
      stable_PC_POP, stable_PC_MUL, stable_PC_CMP;
    intros H; vm_compute in H; discriminate H.
Qed.

(** A property of every outcome of [dispatch_table[k](...)]. *)
Lemma dispatch_then (Q : M CPU unit -> Prop) (call : handler -> M CPU unit)
      k :
  Q (raise (KeyError k)) ->
  (forall h, dispatch_table !! k = Some h -> Q (call h)) ->
  Q (let! h := dispatch k in call h).
Proof.
  intros Hraise Hcall. unfold dispatch.
  destruct (dispatch_table !! k) as [h |].
  - specialize (Hcall h eq_refl).
    change (Q (fun s => call h s)). exact Hcall.
  - exact Hraise.
Qed.

Lemma handler_forall_call0 (Q : M CPU unit -> Prop) h :
  (forall e, Q (raise e)) -> handler_forall Q h -> Q (call0 h).
Proof. intros Hr H. destruct h; simpl; [exact H | apply Hr]. Qed.

Lemma handler_forall_call2 (Q : M CPU unit -> Prop) h a b :
  (forall e, Q (raise e)) -> handler_forall Q h -> Q (call2 h a b).
Proof. intros Hr H. destruct h; simpl; [apply Hr | apply H]. Qed.
End DispatchFacts.

(** ** Facts about the flag bits *)

Section FlagFacts.
Implicit Types (fl k n : Z).

Lemma land_pow2 fl k :
  0 <= k -> Z.land fl (2 ^ k) = if Z.testbit fl k then 2 ^ k else 0.
Proof.
  intros Hk. apply Z.bits_inj'. intros n Hn.
  rewrite Z.land_spec, Z.pow2_bits_eqb by assumption.
  destruct (Z.eqb_spec k n) as [-> | Hne].
  - destruct (Z.testbit fl n); simpl.
    + rewrite Z.pow2_bits_eqb by assumption. now rewrite Z.eqb_refl.
    + now rewrite Z.bits_0.
  - rewrite andb_false_r. destruct (Z.testbit fl k).
    + rewrite Z.pow2_bits_eqb by assumption.
      symmetry. now apply Z.eqb_neq.
    + now rewrite Z.bits_0.
Qed.

Lemma flag_set_pow2 fl k : 0 <= k -> flag_set fl (2 ^ k) = Z.testbit fl k.
Proof.
  intros Hk. unfold flag_set. rewrite land_pow2 by assumption.
  assert (0 < 2 ^ k) by now apply Z.pow_pos_nonneg.
  destruct (Z.testbit fl k); [apply Z.eqb_refl | apply Z.eqb_neq; lia].
Qed.

Lemma flag_clear_pow2 fl k :
  0 <= k -> (Z.land fl (2 ^ k) =? 0) = negb (Z.testbit fl k).
Proof.
  intros Hk. rewrite land_pow2 by assumption.
  assert (0 < 2 ^ k) by now apply Z.pow_pos_nonneg.
  destruct (Z.testbit fl k); simpl; [apply Z.eqb_neq; lia | reflexivity].
Qed.

(** [fl |= mask] and [fl &= ~mask] for a one-bit mask. *)
Lemma testbit_set_flag fl k n :
  0 <= k -> Z.testbit (Z.lor fl (2 ^ k)) n = (k =? n) || Z.testbit fl n.
Proof.
  intros Hk. destruct (Z.neg_nonneg_cases n) as [Hn | Hn].
  - rewrite !Z.testbit_neg_r by assumption.
    symmetry. rewrite orb_false_r. apply Z.eqb_neq. lia.
  - rewrite Z.lor_spec, Z.pow2_bits_eqb by assumption. apply orb_comm.
Qed.

Lemma testbit_clear_flag fl k n :
  0 <= k ->
  Z.testbit (Z.land fl (Z.lnot (2 ^ k))) n = negb (k =? n) && Z.testbit fl n.
Proof.
  intros Hk. destruct (Z.neg_nonneg_cases n) as [Hn | Hn].
  - rewrite !Z.testbit_neg_r by assumption. now rewrite andb_false_r.
  - rewrite Z.land_spec, Z.lnot_spec, Z.pow2_bits_eqb by assumption.
    apply andb_comm.
Qed.

(** The masks are one-bit masks. *)
Lemma FLAG_EQUAL_bit : FLAG_EQUAL = 2 ^ 0.
Proof. reflexivity. Qed.
Lemma FLAG_GREATER_bit : FLAG_GREATER = 2 ^ 1.
Proof. reflexivity. Qed.
Lemma FLAG_LESS_bit : FLAG_LESS = 2 ^ 2.
Proof. reflexivity. Qed.
Lemma FLAG_RUNNING_bit : FLAG_RUNNING = 2 ^ 7.
Proof. reflexivity. Qed.

Lemma flag_set_EQUAL fl : flag_set fl FLAG_EQUAL = Z.testbit fl 0.
Proof. now apply (flag_set_pow2 fl 0). Qed.
Lemma flag_set_GREATER fl : flag_set fl FLAG_GREATER = Z.testbit fl 1.
Proof. now apply (flag_set_pow2 fl 1). Qed.
Lemma flag_set_LESS fl : flag_set fl FLAG_LESS = Z.testbit fl 2.
Proof. now apply (flag_set_pow2 fl 2). Qed.
Lemma flag_set_RUNNING fl : flag_set fl FLAG_RUNNING = Z.testbit fl 7.
Proof. now apply (flag_set_pow2 fl 7). Qed.

(** The flags register that [CMP] leaves: every bit of it. *)
Lemma testbit_CMP_flags fl (eq lt gt : bool) n :
  Z.testbit
    (if gt
     then Z.lor (if lt
                 then Z.lor (if eq then Z.lor fl FLAG_EQUAL
                             else Z.land fl (Z.lnot FLAG_EQUAL)) FLAG_LESS
                 else Z.land (if eq then Z.lor fl FLAG_EQUAL
                              else Z.land fl (Z.lnot FLAG_EQUAL))
                             (Z.lnot FLAG_LESS)) FLAG_GREATER
     else Z.land (if lt
                  then Z.lor (if eq then Z.lor fl FLAG_EQUAL
                              else Z.land fl (Z.lnot FLAG_EQUAL)) FLAG_LESS
                  else Z.land (if eq then Z.lor fl FLAG_EQUAL
                               else Z.land fl (Z.lnot FLAG_EQUAL))
                              (Z.lnot FLAG_LESS)) (Z.lnot FLAG_GREATER)) n
  = if n =? 0 then eq
    else if n =? 1 then gt
    else if n =? 2 then lt
    else Z.testbit fl n.
Proof.
  cbv zeta.
  rewrite FLAG_EQUAL_bit, FLAG_GREATER_bit, FLAG_LESS_bit.
  destruct eq, lt, gt;
    repeat first [ rewrite testbit_set_flag by lia
                 | rewrite testbit_clear_flag by lia ];
    repeat match goal with
           | |- context [Z.eqb ?a ?b] => destruct (Z.eqb_spec a b)
           end;
    try lia; reflexivity.
Qed.
End FlagFacts.

(** ** The decoder *)

Section DecoderFacts.
Lemma shiftr_land_shiftl (ir mask k : Z) :
  0 <= k ->
  Z.shiftr (Z.land ir (Z.shiftl mask k)) k = Z.land (Z.shiftr ir k) mask.
Proof.
  intros Hk. apply Z.bits_inj'. intros n Hn.
  rewrite Z.shiftr_spec, !Z.land_spec, Z.shiftr_spec, Z.shiftl_spec
    by lia.
  now replace (n + k - k) with n by lia.
Qed.

Lemma num_ops_spec ir : num_ops ir = Decoder.operand_count ir.
Proof. apply (shiftr_land_shiftl ir 3 6). lia. Qed.

Lemma use_alu_spec ir : use_alu ir = Decoder.is_alu_op ir.
Proof. apply (shiftr_land_shiftl ir 1 5). lia. Qed.

Lemma sets_pc_spec ir : sets_pc ir = Decoder.sets_pc ir.
Proof. apply (shiftr_land_shiftl ir 1 4). lia. Qed.

Lemma insr_id_spec ir : insr_id ir = Decoder.instruction_id ir.
Proof. unfold insr_id. now rewrite Z.shiftr_0_r. Qed.

(** The PC-control field is bit 4 of the opcode. *)
Lemma sets_pc_bit ir : Decoder.sets_pc ir = Z.b2z (Z.testbit ir 4).
Proof.
  unfold Decoder.sets_pc. change 1 with (Z.ones 1).
  rewrite Z.land_ones by lia. change (2 ^ 1) with 2.
  rewrite <- Z.bit0_mod, Z.shiftr_spec by lia. reflexivity.
Qed.

Lemma operand_count_range ir : 0 <= Decoder.operand_count ir <= 3.
Proof.
  unfold Decoder.operand_count.
  assert (H : Z.land (Z.shiftr ir 6) 3 = Z.shiftr ir 6 mod 2 ^ 2)
    by (apply (Z.land_ones (Z.shiftr ir 6) 2); lia).
  rewrite H.
  pose proof (Z.mod_pos_bound (Z.shiftr ir 6) (2 ^ 2)). lia.
Qed.
End DecoderFacts.

(** ** The loop body *)

Section LoopFacts.
Implicit Types (c : CPU).

Lemma read_byte_inv (m m' : Memory) (a v : Z) :
  read_byte a m = (m', Ok v) ->
  m' = m /\ v = cell m a /\ 0 <= a < size m.
Proof.
  unfold read_byte. rewrite bind_get.
  destruct ((a <? 0) || (a >? size m - 1)) eqn:Eb; [discriminate |].
  apply orb_false_elim in Eb as [Eb1 Eb2]. rewrite Z.gtb_ltb in Eb2.
  unfold lift_result, list_get, cell.
  destruct (internal_memory m !! Z.to_nat a); [| discriminate].
  intros [= <- <-]. repeat split; lia.
Qed.

Lemma ram_read_inv c c' a v :
  ram_read a c = (c', Ok v) ->
  c' = c /\ v = byte_at c a /\ 0 <= a < size (ram c).
Proof.
  unfold ram_read, on_ram.
  destruct (read_byte a (ram c)) as [m' r] eqn:E. intros [= <- ->].
  apply read_byte_inv in E as (-> & -> & Ha).
  now rewrite set_ram_id.
Qed.

Lemma ram_read_pure c a : fst (ram_read a c) = c.
Proof.
  unfold ram_read, on_ram.
  pose proof (read_byte_pure (ram c) a) as H.
  destruct (read_byte a (ram c)) as [m' r]. simpl in *. subst m'.
  apply set_ram_id.
Qed.

Lemma preserves_unknown (msg : Z -> Z -> string) :
  preserves cpu_wf (let! c := get in print (msg (IR c) (PC c)) ;; HLT).
Proof. by_combinators. Qed.

Lemma stable_unknown {X} (f : CPU -> X) (msg : Z -> Z -> string) :
  (forall v c, f (set_FL v c) = f c) ->
  (forall v c, f (set_stdout v c) = f c) ->
  stable f (let! c := get in print (msg (IR c) (PC c)) ;; HLT).
Proof.
  intros H1 H2. unfold print, HLT.
  apply stable_bind; [apply stable_get | intros c].
  apply stable_bind; [| intros _]; apply stable_modify; intros c0.
  - apply H2.
  - apply H1.
Qed.

Lemma preserves_alu op a b : preserves cpu_wf (alu op a b).
Proof.
  unfold alu. apply preserves_try_except.
  - apply preserves_bind; [apply preserves_get | intros c].
    apply (dispatch_then (preserves cpu_wf));
      [apply preserves_raise | intros h Hh].
    apply handler_forall_call2; [apply preserves_raise |].
    eapply dispatch_table_preserves, Hh.
  - intros []; try apply preserves_raise. apply preserves_unknown.
Qed.

Lemma preserves_execute : preserves cpu_wf execute.
Proof.
  unfold execute. apply preserves_bind; [apply preserves_get | intros c].
  apply preserves_if.
  - unfold ram_read.
    apply preserves_bind; [auto with py | intros reg_a].
    apply preserves_bind; [auto with py | intros reg_b].
    apply preserves_alu.
  - apply preserves_try_except.
    + apply (dispatch_then (preserves cpu_wf));
        [apply preserves_raise | intros h Hh].
      apply handler_forall_call0; [apply preserves_raise |].
      eapply dispatch_table_preserves, Hh.
    + intros []; try apply preserves_raise. apply preserves_unknown.
Qed.

Lemma preserves_advance : preserves cpu_wf advance.
Proof. by_combinators. Qed.

Lemma preserves_cycle : preserves cpu_wf cycle.
Proof.
  unfold cycle, ram_read.
  apply preserves_bind; [apply preserves_get | intros c].
  apply preserves_bind; [auto with py | intros ir].
  apply preserves_bind; [auto with py | intros _].
  apply preserves_bind; [apply preserves_execute | intros _].
  apply preserves_advance.
Qed.

(** [run] leaves a well-formed machine, however it ends. *)
Lemma run_loop_wf fuel c c' r :
  cpu_wf c -> run_loop fuel c = Some (c', r) -> cpu_wf c'.
Proof.
  revert c. induction fuel as [| fuel IH]; intros c Hwf; simpl;
    destruct (running c); try discriminate;
    try (intros [= <- <-]; assumption).
  pose proof (preserves_cycle c Hwf) as Hc.
  destruct (cycle c) as [c1 [u | e]]; simpl in Hc.
  - now apply IH.
  - now intros [= <- <-].
Qed.

Lemma stable_IR_alu op a b : stable IR (alu op a b).
Proof.
  unfold alu. apply stable_try_except.
  - apply stable_bind; [apply stable_get | intros c].
    apply (dispatch_then (stable IR)); [apply stable_raise | intros h Hh].
    apply handler_forall_call2; [apply stable_raise |].
    eapply dispatch_table_stable_IR, Hh.
  - intros []; try apply stable_raise. now apply stable_unknown.
Qed.

Lemma stable_IR_execute : stable IR execute.
Proof.
  unfold execute. apply stable_bind; [apply stable_get | intros c].
  apply stable_if.
  - unfold ram_read.
    apply stable_bind; [auto with py | intros reg_a].
    apply stable_bind; [auto with py | intros reg_b].
    apply stable_IR_alu.
  - apply stable_try_except.
    + apply (dispatch_then (stable IR)); [apply stable_raise | intros h Hh].
      apply handler_forall_call0; [apply stable_raise |].
      eapply dispatch_table_stable_IR, Hh.
    + intros []; try apply stable_raise. now apply stable_unknown.
Qed.

(** What is dispatched on an opcode whose bit 4 is clear leaves PC
    alone, the fallback for an unknown opcode included. *)
Lemma stable_PC_dispatched (call : handler -> M CPU unit) k
      (msg : Z -> Z -> string) :
  sets_pc k = 0 ->
  (forall h, handler_forall (stable PC) h -> stable PC (call h)) ->
  stable PC
    (try_except
       (let! h := dispatch k in call h)
       (fun e => match e with
                 | KeyError _ =>
                     let! c := get in print (msg (IR c) (PC c)) ;; HLT
                 | _ => raise e
                 end)).
Proof.
  intros Hk Hcall. apply stable_try_except.
  - apply (dispatch_then (stable PC)); [apply stable_raise | intros h Hh].
    apply Hcall. now apply (dispatch_table_stable_PC k).
  - intros []; try apply stable_raise. now apply stable_unknown.
Qed.

Lemma execute_PC c : sets_pc (IR c) = 0 -> PC (fst (execute c)) = PC c.
Proof.
  intros Hk. unfold execute. rewrite bind_get.
  destruct (negb (use_alu (IR c) =? 0)).
  - unfold bind at 1.
    pose proof (ram_read_pure c (PC c + 1)) as H1.
    destruct (ram_read (PC c + 1) c) as [c1 [a | e]]; simpl in H1; subst c1;
      [| reflexivity].
    unfold bind at 1.
    pose proof (ram_read_pure c (PC c + 2)) as H2.
    destruct (ram_read (PC c + 2) c) as [c2 [b | e]]; simpl in H2; subst c2;
      [| reflexivity].
    unfold alu, try_except at 1. rewrite bind_get.
    apply (stable_PC_dispatched (fun h => call2 h a b) (IR c)
             unknown_alu_msg Hk).
    intros h Hh. apply handler_forall_call2; [apply stable_raise | exact Hh].
  - apply (stable_PC_dispatched call0 (IR c) unknown_msg Hk).
    intros h Hh. apply handler_forall_call0; [apply stable_raise | exact Hh].
Qed.
End LoopFacts.

(** ** The contract of [Memory] *)

(** C3. In a memory of capacity [size m], at a valid address [a]: writing an
    integer [v] in [0, 255] and then reading [a] returns [v]; writing an
    integer outside [0, 255] raises the [TypeError] of [write_byte] and
    leaves the memory as it was. *)
Theorem write_byte_then_read_byte (m : Memory) (a v : Z) :
  mem_wf m -> 0 <= a < size m ->
  (0 <= v <= 255 ->
   (write_byte a (PyInt v) ;; read_byte a) m = (set_cell m a v, Ok v)) /\
  (v < 0 \/ 255 < v ->
   write_byte a (PyInt v) m = (m, Raise not_a_byte)).
Proof.
  intros Hwf Ha. split; intros Hv.
  - erewrite bind_ok
      by (apply write_byte_stores; [assumption .. | reflexivity | assumption]).
    rewrite read_byte_ok by (try apply mem_wf_set_cell; assumption).
    now rewrite cell_set_cell_eq.
  - now apply write_byte_range_error with (v := v).
Qed.

Lemma write_byte_then_read_byte_witness :
  ((write_byte 3 (PyInt 42) ;; read_byte 3) (Memory_init 8)
   = (set_cell (Memory_init 8) 3 42, Ok 42)) /\
  write_byte 3 (PyInt 256) (Memory_init 8)
  = (Memory_init 8, Raise not_a_byte).
Proof.
  destruct (write_byte_then_read_byte (Memory_init 8) 3 42) as [H1 _];
    [apply mem_wf_init | simpl; lia |].
  destruct (write_byte_then_read_byte (Memory_init 8) 3 256) as [_ H2];
    [apply mem_wf_init | simpl; lia |].
  split; [apply H1 | apply H2]; lia.
Defined.

(** What [int] does to the float of the example, 3.5. *)
Example py_int_float : py_int (PyFloat (FFinite 7 (-1))) = Ok 3.
Proof. reflexivity. Qed.

(** C9, as stated, fails twice.  The float 3.5 is not integral, yet the
    write succeeds and stores 3.  The string "abc" cannot be coerced:
    [int("abc")] raises a [ValueError], which [except TypeError] does not
    catch, so the write raises that [ValueError] and not the [TypeError]
    that an out-of-range integer gets. *)
Lemma write_byte_coercion_counterexample :
  write_byte 0 (PyFloat (FFinite 7 (-1))) (Memory_init 8)
  = (set_cell (Memory_init 8) 0 3, Ok tt) /\
  write_byte 0
    (PyObject
       (Raise (ValueError "invalid literal for int() with base 10: 'abc'")))
    (Memory_init 8)
  = (Memory_init 8,
     Raise (ValueError "invalid literal for int() with base 10: 'abc'")) /\
  write_byte 0 (PyInt 256) (Memory_init 8)
  = (Memory_init 8, Raise not_a_byte) /\
  ValueError "invalid literal for int() with base 10: 'abc'" <> not_a_byte.
Proof. repeat split; discriminate. Qed.

(** C9, amended.  At a valid address, a value for which [int] raises a
    [TypeError] fails with the same exception as a value whose coercion is
    outside [0, 255], and neither changes the memory; a value whose
    coercion is in [0, 255] is stored as the coerced integer, integral or
    not. *)
Theorem write_byte_coercion (m : Memory) (a : Z) (data : pyval) :
  mem_wf m -> 0 <= a < size m ->
  (forall msg, py_int data = Raise (TypeError msg) ->
     write_byte a data m = (m, Raise not_a_byte)) /\
  (forall v, py_int data = Ok v -> v < 0 \/ 255 < v ->
     write_byte a data m = (m, Raise not_a_byte)) /\
  (forall v, py_int data = Ok v -> 0 <= v <= 255 ->
     write_byte a data m = (set_cell m a v, Ok tt)).
Proof.
  intros Hwf Ha. repeat split.
  - intros msg H. eapply write_byte_int_TypeError; eassumption.
  - intros v H Hv. eapply write_byte_range_error; eassumption.
  - intros v H Hv. now apply write_byte_stores.
Qed.

Lemma write_byte_coercion_witness :
  write_byte 0 PyNone (Memory_init 8) = (Memory_init 8, Raise not_a_byte) /\
  write_byte 0 (PyFloat (FFinite 7 (-1))) (Memory_init 8)
  = (set_cell (Memory_init 8) 0 3, Ok tt).
Proof.
  split.
  - destruct (write_byte_coercion (Memory_init 8) 0 PyNone) as [H _];
      [apply mem_wf_init | simpl; lia |].
    eapply H. reflexivity.
  - destruct (write_byte_coercion (Memory_init 8) 0
                (PyFloat (FFinite 7 (-1)))) as (_ & _ & H);
      [apply mem_wf_init | simpl; lia |].
    apply H; [reflexivity | lia].
Defined.

(** ** The instruction handlers *)

(** C4. [CMP] on two valid register numbers succeeds and changes only the
    flags register: EQUAL, LESS and GREATER are set exactly when the first
    register is equal to, less than and greater than the second, so exactly
    one of the three is set whatever the flags were before, and every other
    bit of the flags register, RUNNING among them, is as it was. *)
Theorem CMP_sets_flags (c : CPU) (reg_a reg_b : Z) :
  cpu_wf c -> 0 <= reg_a <= 7 -> 0 <= reg_b <= 7 ->
  exists fl,
    CMP reg_a reg_b c = (set_FL fl c, Ok tt) /\
    flag_set fl FLAG_EQUAL = (reg c reg_a =? reg c reg_b) /\
    flag_set fl FLAG_LESS = (reg c reg_a <? reg c reg_b) /\
    flag_set fl FLAG_GREATER = (reg c reg_a >? reg c reg_b) /\
    Z.b2z (flag_set fl FLAG_EQUAL) + Z.b2z (flag_set fl FLAG_LESS)
      + Z.b2z (flag_set fl FLAG_GREATER) = 1 /\
    flag_set fl FLAG_RUNNING = flag_set (FL c) FLAG_RUNNING /\
    (forall n, n <> 0 -> n <> 1 -> n <> 2 ->
               Z.testbit fl n = Z.testbit (FL c) n).
Proof.
  intros Hwf Ha Hb. unfold CMP.
  rewrite (bind_ok _ _ _ _ _ (reg_read_ok c reg_a Hwf Ha)).
  rewrite (bind_ok _ _ _ _ _ (reg_read_ok c reg_b Hwf Hb)).
  set (eq := reg c reg_a =? reg c reg_b).
  set (lt := reg c reg_a <? reg c reg_b).
  set (gt := reg c reg_a >? reg c reg_b).
  exists (if gt
          then Z.lor (if lt
                      then Z.lor (if eq then Z.lor (FL c) FLAG_EQUAL
                                  else Z.land (FL c) (Z.lnot FLAG_EQUAL))
                                 FLAG_LESS
                      else Z.land (if eq then Z.lor (FL c) FLAG_EQUAL
                                   else Z.land (FL c) (Z.lnot FLAG_EQUAL))
                                  (Z.lnot FLAG_LESS)) FLAG_GREATER
          else Z.land (if lt
                       then Z.lor (if eq then Z.lor (FL c) FLAG_EQUAL
                                   else Z.land (FL c) (Z.lnot FLAG_EQUAL))
                                  FLAG_LESS
                       else Z.land (if eq then Z.lor (FL c) FLAG_EQUAL
                                    else Z.land (FL c) (Z.lnot FLAG_EQUAL))
                                   (Z.lnot FLAG_LESS)) (Z.lnot FLAG_GREATER)).
  split; [now destruct eq, lt, gt |].
  rewrite flag_set_EQUAL, flag_set_LESS, flag_set_GREATER, !flag_set_RUNNING.
  rewrite !testbit_CMP_flags. simpl.
  repeat split.
  - subst eq lt gt. rewrite Z.gtb_ltb.
    destruct (Z.eqb_spec (reg c reg_a) (reg c reg_b));
      destruct (Z.ltb_spec (reg c reg_a) (reg c reg_b));
      destruct (Z.ltb_spec (reg c reg_b) (reg c reg_a)); simpl; lia.
  - intros n H0 H1 H2. rewrite testbit_CMP_flags.
    destruct (Z.eqb_spec n 0); [lia |].
    destruct (Z.eqb_spec n 1); [lia |].
    destruct (Z.eqb_spec n 2); [lia | reflexivity].
Qed.

Lemma CMP_sets_flags_witness :
  exists fl,
    CMP 0 1 (set_reg 0 3 (set_reg 1 5 (set_FL FLAG_RUNNING CPU_init)))
    = (set_FL fl (set_reg 0 3 (set_reg 1 5 (set_FL FLAG_RUNNING CPU_init))),
       Ok tt) /\
    flag_set fl FLAG_EQUAL = false /\
    flag_set fl FLAG_LESS = true /\
    flag_set fl FLAG_GREATER = false /\
    flag_set fl FLAG_RUNNING = true.
Proof.
  destruct (CMP_sets_flags
              (set_reg 0 3 (set_reg 1 5 (set_FL FLAG_RUNNING CPU_init))) 0 1)
    as (fl & H & He & Hl & Hg & _ & Hr & _).
  - repeat apply cpu_wf_set_reg; try lia.
    apply cpu_wf_set_FL, cpu_wf_init.
  - lia.
  - lia.
  - exists fl. repeat split; assumption.
Defined.

(** [JMP] with a valid operand. *)
Lemma JMP_ok (c : CPU) :
  cpu_wf c -> 0 <= PC c + 1 <= 255 -> 0 <= byte_at c (PC c + 1) <= 7 ->
  JMP c = (set_PC (reg c (byte_at c (PC c + 1))) c, Ok tt).
Proof.
  intros Hwf Hpc Hr. unfold JMP. rewrite bind_get.
  rewrite (bind_ok _ _ _ _ _ (ram_read_ok c _ Hwf Hpc)).
  now rewrite (bind_ok _ _ _ _ _ (reg_read_ok c _ Hwf Hr)).
Qed.

(** C5. [JEQ] with EQUAL set, and [JNE] with EQUAL clear, succeed and leave
    in PC the value of the register named by the byte at PC+1; [JEQ] with
    EQUAL clear, and [JNE] with EQUAL set, succeed and leave PC + 2 in PC.
    In each case nothing but PC changes. *)
Theorem JEQ_JNE_branch (c : CPU) :
  cpu_wf c ->
  (0 <= PC c + 1 <= 255 -> 0 <= byte_at c (PC c + 1) <= 7 ->
   (flag_set (FL c) FLAG_EQUAL = true ->
    JEQ c = (set_PC (reg c (byte_at c (PC c + 1))) c, Ok tt) /\
    PC (fst (JEQ c)) = reg c (byte_at c (PC c + 1))) /\
   (flag_set (FL c) FLAG_EQUAL = false ->
    JNE c = (set_PC (reg c (byte_at c (PC c + 1))) c, Ok tt) /\
    PC (fst (JNE c)) = reg c (byte_at c (PC c + 1)))) /\
  (flag_set (FL c) FLAG_EQUAL = false ->
   JEQ c = (set_PC (PC c + 2) c, Ok tt) /\
   PC (fst (JEQ c)) = PC c + 2) /\
  (flag_set (FL c) FLAG_EQUAL = true ->
   JNE c = (set_PC (PC c + 2) c, Ok tt) /\
   PC (fst (JNE c)) = PC c + 2).
Proof.
  intros Hwf.
  assert (Hne : (Z.land (FL c) FLAG_EQUAL =? 0)
                = negb (flag_set (FL c) FLAG_EQUAL)).
  { rewrite flag_set_EQUAL. now apply (flag_clear_pow2 (FL c) 0). }
  assert (Hread : forall (m : M CPU unit) v,
             m c = (set_PC v c, Ok tt) ->
             m c = (set_PC v c, Ok tt) /\ PC (fst (m c)) = v).
  { intros m v H. split; [exact H | now rewrite H]. }
  split; [intros Hpc Hr; split | split]; intros Hfl; apply Hread.
  - unfold JEQ. rewrite bind_get.
    fold (flag_set (FL c) FLAG_EQUAL). rewrite Hfl. now apply JMP_ok.
  - unfold JNE. rewrite bind_get. rewrite Hne, Hfl. now apply JMP_ok.
  - unfold JEQ. rewrite bind_get.
    fold (flag_set (FL c) FLAG_EQUAL). now rewrite Hfl.
  - unfold JNE. rewrite bind_get. now rewrite Hne, Hfl.
Qed.

(** C6. [MUL] on two valid register numbers: a product above 255 raises the
    [TypeError] of [write_byte] and leaves every register (the whole
    machine) as it was, so nothing is truncated or wrapped; a product in
    [0, 255] is stored in the first register. *)
Theorem MUL_range_checked (c : CPU) (reg_a reg_b : Z) :
  cpu_wf c -> 0 <= reg_a <= 7 -> 0 <= reg_b <= 7 ->
  (255 < reg c reg_a * reg c reg_b ->
   MUL reg_a reg_b c = (c, Raise not_a_byte)) /\
  (0 <= reg c reg_a * reg c reg_b <= 255 ->
   MUL reg_a reg_b c
   = (set_reg reg_a (reg c reg_a * reg c reg_b) c, Ok tt)).
Proof.
  intros Hwf Ha Hb. split; intros Hp; unfold MUL;
    rewrite (bind_ok _ _ _ _ _ (reg_read_ok c reg_a Hwf Ha));
    rewrite (bind_ok _ _ _ _ _ (reg_read_ok c reg_b Hwf Hb)); cbv zeta.
  - apply reg_write_range_error; [assumption | assumption | lia].
  - now apply reg_write_ok.
Qed.

(** C10. [POP] whose operand names register 7: when the byte popped is
    [p < 255], the handler succeeds and leaves [p + 1] in register 7. *)
Theorem POP_into_SP (c : CPU) (p : Z) :
  cpu_wf c -> 0 <= PC c + 1 <= 255 -> byte_at c (PC c + 1) = 7 ->
  byte_at c (reg c 7) = p -> p < 255 ->
  POP c = (set_reg 7 (p + 1) (set_reg 7 p c), Ok tt) /\
  reg (set_reg 7 (p + 1) (set_reg 7 p c)) 7 = p + 1 /\
  reg (set_reg 7 (p + 1) (set_reg 7 p c)) 7 <> p.
Proof.
  intros Hwf Hpc Hop Hp Hlt.
  pose proof (reg_bounds c 7 Hwf) as Hsp.
  pose proof (byte_at_bounds c (reg c 7) Hwf) as Hdata. rewrite Hp in Hdata.
  assert (Hwf1 : cpu_wf (set_reg 7 p c)) by now apply cpu_wf_set_reg.
  assert (Hr7 : reg (set_reg 7 p c) 7 = p)
    by (apply reg_set_reg_eq; [assumption | lia]).
  assert (Hr7' : reg (set_reg 7 (p + 1) (set_reg 7 p c)) 7 = p + 1)
    by (apply reg_set_reg_eq; [assumption | lia]).
  split; [| split].
  - unfold POP. rewrite bind_get.
    rewrite (bind_ok _ _ _ _ _ (ram_read_ok c _ Hwf Hpc)). rewrite Hop.
    rewrite (bind_ok _ _ _ _ _ (get_SP_ok c Hwf)).
    rewrite (bind_ok _ _ _ _ _ (ram_read_ok c _ Hwf Hsp)). rewrite Hp.
    erewrite bind_ok by (apply reg_write_ok; [assumption | lia | assumption]).
    rewrite (bind_ok _ _ _ _ _ (get_SP_ok _ Hwf1)). rewrite Hr7.
    apply set_SP_ok; [assumption | lia].
  - exact Hr7'.
  - rewrite Hr7'. lia.
Qed.

(** ** The diagnostic text *)

Section DiagnosticFacts.
Lemma append_cancel_l (p s t : string) :
  (p +:+ s = p +:+ t)%string -> s = t.
Proof.
  induction p as [| ch p IH]; simpl; [trivial |].
  intros [= H]. now apply IH.
Qed.

Lemma append_split (s1 s2 t1 t2 : string) :
  String.length s1 = String.length s2 ->
  (s1 +:+ t1 = s2 +:+ t2)%string -> s1 = s2 /\ t1 = t2.
Proof.
  revert s2. induction s1 as [| ch s1 IH]; intros [| ch2 s2]; simpl;
    try discriminate.
  - now intros _ H.
  - intros [= Hlen] [= -> H]. destruct (IH s2 Hlen H) as [-> ->]. now split.
Qed.

Lemma format_02X_byte_table :
  forallb
    (fun a =>
       (String.length (format_02X a) =? 2)%nat
       && forallb (fun b => implb (String.eqb (format_02X a) (format_02X b))
                                  (a =? b))
                  (seqZ 0 256))
    (seqZ 0 256) = true.
Proof. vm_compute. reflexivity. Qed.

Lemma format_02X_byte_length (a : Z) :
  0 <= a <= 255 -> String.length (format_02X a) = 2%nat.
Proof.
  intros Ha. pose proof format_02X_byte_table as H.
  rewrite forallb_forall in H.
  specialize (H a ltac:(apply list_elem_of_In, elem_of_seqZ; lia)).
  apply andb_prop in H as [H _]. now apply Nat.eqb_eq.
Qed.

(** Two bytes that print alike are equal. *)
Lemma format_02X_byte_inj (a b : Z) :
  0 <= a <= 255 -> 0 <= b <= 255 -> format_02X a = format_02X b -> a = b.
Proof.
  intros Ha Hb E. pose proof format_02X_byte_table as H.
  rewrite forallb_forall in H.
  specialize (H a ltac:(apply list_elem_of_In, elem_of_seqZ; lia)).
  apply andb_prop in H as [_ H]. rewrite forallb_forall in H.
  specialize (H b ltac:(apply list_elem_of_In, elem_of_seqZ; lia)).
  rewrite E, String.eqb_refl in H. now apply Z.eqb_eq.
Qed.

(** The diagnostic identifies the opcode and the address. *)
Lemma unknown_msg_inj (ir pc ir' pc' : Z) :
  0 <= ir <= 255 -> 0 <= pc <= 255 -> 0 <= ir' <= 255 -> 0 <= pc' <= 255 ->
  unknown_msg ir pc = unknown_msg ir' pc' -> ir = ir' /\ pc = pc'.
Proof.
  intros Hir Hpc Hir' Hpc' H. unfold unknown_msg in H.
  apply append_cancel_l in H.
  apply append_split in H as [H1 H2];
    [| now rewrite !format_02X_byte_length].
  apply append_cancel_l in H2.
  split; now apply format_02X_byte_inj.
Qed.

Lemma unknown_alu_msg_inj (ir pc ir' pc' : Z) :
  0 <= ir <= 255 -> 0 <= pc <= 255 -> 0 <= ir' <= 255 -> 0 <= pc' <= 255 ->
  unknown_alu_msg ir pc = unknown_alu_msg ir' pc' -> ir = ir' /\ pc = pc'.
Proof.
  intros Hir Hpc Hir' Hpc' H. unfold unknown_alu_msg in H.
  apply append_cancel_l in H.
  apply append_split in H as [H1 H2];
    [| now rewrite !format_02X_byte_length].
  apply append_cancel_l in H2.
  split; now apply format_02X_byte_inj.
Qed.
End DiagnosticFacts.

(** ** The fetch/decode/execute loop *)

(** C1. In every iteration of the loop of [run] that completes, the
    instruction register receives the byte at PC; the selected handler runs
    on that state; then, if bit 4 of the instruction is clear, the handler
    has left PC alone and PC becomes the old PC + 1 + the operand count
    [(IR >> 6) & 3], and if bit 4 is set the loop leaves the state, PC
    included, as the handler left it. *)
Theorem cycle_fetch_advance (c c' : CPU) :
  cycle c = (c', Ok tt) ->
  IR c' = byte_at c (PC c) /\
  exists c1,
    execute (set_IR (byte_at c (PC c)) c) = (c1, Ok tt) /\
    (Z.testbit (IR c') 4 = false ->
     PC c1 = PC c /\ PC c' = PC c + 1 + Decoder.operand_count (IR c')) /\
    (Z.testbit (IR c') 4 = true -> c' = c1).
Proof.
  unfold cycle. rewrite bind_get. intros H.
  apply bind_inv in H as (s1 & ir & Hread & H).
  apply ram_read_inv in Hread as (-> & -> & _).
  apply bind_inv in H as (s2 & [] & Hmod & H).
  cbv beta delta [modify] in Hmod. injection Hmod as <-.
  apply bind_inv in H as (c1 & [] & Hexec & Hadv).
  pose proof (stable_IR_execute (set_IR (byte_at c (PC c)) c)) as HIR.
  rewrite Hexec in HIR. simpl in HIR.
  unfold advance in Hadv. rewrite bind_get in Hadv.
  rewrite sets_pc_spec, sets_pc_bit, HIR in Hadv.
  destruct (Z.testbit (byte_at c (PC c)) 4) eqn:Hbit; simpl in Hadv;
    injection Hadv as <-; cbn [IR PC set_PC]; rewrite HIR, Hbit;
    (split; [reflexivity |]); exists c1; (split; [assumption |]).
  - split; [discriminate | reflexivity].
  - split; [| discriminate]. intros _.
    pose proof (execute_PC (set_IR (byte_at c (PC c)) c)) as HPC.
    rewrite Hexec in HPC. simpl in HPC.
    rewrite HPC
      by (rewrite sets_pc_spec, sets_pc_bit, Hbit; reflexivity).
    split; [reflexivity |]. rewrite num_ops_spec. lia.
Qed.

Lemma cycle_fetch_advance_witness :
  IR (fst (cycle (loaded prog_mul)))
  = byte_at (loaded prog_mul) (PC (loaded prog_mul)) /\
  exists c1,
    execute (set_IR (byte_at (loaded prog_mul) (PC (loaded prog_mul)))
                    (loaded prog_mul)) = (c1, Ok tt) /\
    (Z.testbit (IR (fst (cycle (loaded prog_mul)))) 4 = false ->
     PC c1 = PC (loaded prog_mul) /\
     PC (fst (cycle (loaded prog_mul)))
     = PC (loaded prog_mul) + 1
       + Decoder.operand_count (IR (fst (cycle (loaded prog_mul))))) /\
    (Z.testbit (IR (fst (cycle (loaded prog_mul)))) 4 = true ->
     fst (cycle (loaded prog_mul)) = c1).
Proof.
  apply (cycle_fetch_advance (loaded prog_mul)
           (fst (cycle (loaded prog_mul)))).
  vm_compute. reflexivity.
Defined.

Lemma bind_modify {S B} (f : S -> S) (k : unit -> M S B) s :
  bind (modify f) k s = k tt (f s).
Proof. reflexivity. Qed.

Lemma run_loop_halted (fuel : nat) (c : CPU) :
  running c = false -> run_loop fuel c = Some (c, Ok tt).
Proof. intros H. destruct fuel; simpl; now rewrite H. Qed.

Lemma run_loop_step (fuel : nat) (c c1 : CPU) :
  running c = true -> cycle c = (c1, Ok tt) ->
  run_loop (S fuel) c = run_loop fuel c1.
Proof. intros Hr Hc. cbn [run_loop]. now rewrite Hr, Hc. Qed.

Lemma run_loop_raise (fuel : nat) (c c1 : CPU) (e : exn) :
  running c = true -> cycle c = (c1, Raise e) ->
  run_loop (S fuel) c = Some (c1, Raise e).
Proof. intros Hr Hc. cbn [run_loop]. now rewrite Hr, Hc. Qed.

Lemma HLT_not_running (fl : Z) :
  flag_set (Z.land fl (Z.lnot FLAG_RUNNING)) FLAG_RUNNING = false.
Proof.
  rewrite flag_set_RUNNING, FLAG_RUNNING_bit, testbit_clear_flag by lia.
  reflexivity.
Qed.

(** The handler selected for an opcode that is not in the table, once its
    operands (if the ALU bit is set) have been read: the diagnostic is
    printed and [HLT] runs. *)
Lemma execute_unknown (c : CPU) :
  cpu_wf c -> 0 <= PC c <= 255 ->
  dispatch_table !! IR c = None ->
  (use_alu (IR c) <> 0 -> PC c + 2 <= 255) ->
  execute c
  = (set_FL (Z.land (FL c) (Z.lnot FLAG_RUNNING))
       (set_stdout
          (stdout c ++ [(if use_alu (IR c) =? 0
                         then unknown_msg (IR c) (PC c)
                         else unknown_alu_msg (IR c) (PC c))]) c),
     Ok tt).
Proof.
  intros Hwf Hpc Hnone Halu. unfold execute. rewrite bind_get.
  destruct (Z.eqb_spec (use_alu (IR c)) 0) as [E | E]; cbn [negb].
  - unfold try_except, bind, dispatch. rewrite Hnone. reflexivity.
  - specialize (Halu E).
    rewrite (bind_ok _ _ _ _ _ (ram_read_ok c (PC c + 1) Hwf ltac:(lia))).
    rewrite (bind_ok _ _ _ _ _ (ram_read_ok c (PC c + 2) Hwf ltac:(lia))).
    unfold alu, try_except. rewrite bind_get.
    unfold bind, dispatch. rewrite Hnone. reflexivity.
Qed.

(** C2, as stated, fails: an opcode that is in no table and has its ALU bit
    set, fetched at address 254, makes [run] read the operand byte at
    address 256 before it looks the opcode up; [run] ends with the
    [ReferenceError] of [read_byte], prints nothing and leaves RUNNING
    set.  The program reaches that state by itself: it points SP at the
    top of memory, pushes the byte 0x20 to address 254 and jumps there. *)
Lemma unknown_alu_opcode_counterexample :
  exists c,
    run 10 (loaded [0x82; 7; 0xFF; 0x82; 0; 0x20; 0x45; 0;
                    0x82; 1; 0xFE; 0x54; 1])
    = Some (c, Raise out_of_bounds) /\
    PC c = 254 /\ byte_at c 254 = 0x20 /\
    dispatch_table !! 0x20 = None /\ use_alu 0x20 = 1 /\
    stdout c = [] /\ running c = true.
Proof. eexists. vm_compute. repeat split. Qed.

(** The operands of an instruction whose ALU bit is set are read before
    anything is looked up: when PC + 2 is past the end of memory the read
    raises, whatever the opcode. *)
Lemma execute_alu_operand_outside (c : CPU) :
  cpu_wf c -> 0 <= PC c <= 255 -> use_alu (IR c) <> 0 -> 255 < PC c + 2 ->
  execute c = (c, Raise out_of_bounds).
Proof.
  intros Hwf Hpc Halu Hout. unfold execute. rewrite bind_get.
  destruct (Z.eqb_spec (use_alu (IR c)) 0) as [E | _]; [contradiction |].
  cbn [negb].
  destruct (Z.lt_ge_cases 255 (PC c + 1)) as [H1 | H1].
  - now rewrite (bind_raise _ _ _ _ _
                   (ram_read_out_of_bounds c (PC c + 1) Hwf ltac:(lia))).
  - rewrite (bind_ok _ _ _ _ _ (ram_read_ok c (PC c + 1) Hwf ltac:(lia))).
    now rewrite (bind_raise _ _ _ _ _
                   (ram_read_out_of_bounds c (PC c + 2) Hwf ltac:(lia))).
Qed.

(** C2, amended.  While the machine runs, take an opcode fetched at a valid
    PC that is not in the dispatch table.  If its ALU bit is clear, or its
    operand bytes at PC+1 and PC+2 are inside memory, the loop prints the
    diagnostic with the opcode and the PC, runs [HLT] and ends normally
    with RUNNING clear; memory and registers are untouched.  If its ALU
    bit is set and PC + 2 is past the end of memory (PC is 254 or 255),
    the loop ends with the out-of-bounds error of the operand read:
    nothing is printed, RUNNING stays set, and only IR has changed. *)
Theorem unknown_opcode_halts (c : CPU) (fuel : nat) :
  cpu_wf c -> running c = true -> 0 <= PC c <= 255 ->
  dispatch_table !! byte_at c (PC c) = None ->
  ((use_alu (byte_at c (PC c)) <> 0 -> PC c + 2 <= 255) ->
   exists c',
     run_loop (S fuel) c = Some (c', Ok tt) /\
     stdout c'
     = stdout c ++ [(if use_alu (byte_at c (PC c)) =? 0
                     then unknown_msg (byte_at c (PC c)) (PC c)
                     else unknown_alu_msg (byte_at c (PC c)) (PC c))] /\
     running c' = false /\
     FL c' = Z.land (FL c) (Z.lnot FLAG_RUNNING) /\
     IR c' = byte_at c (PC c) /\
     ram c' = ram c /\ gp_registers c' = gp_registers c) /\
  (use_alu (byte_at c (PC c)) <> 0 -> 255 < PC c + 2 ->
   exists c',
     run_loop (S fuel) c = Some (c', Raise out_of_bounds) /\
     stdout c' = stdout c /\ running c' = true /\ FL c' = FL c /\
     IR c' = byte_at c (PC c) /\ PC c' = PC c /\
     ram c' = ram c /\ gp_registers c' = gp_registers c).
Proof.
  intros Hwf Hrun Hpc Hnone.
  set (ir := byte_at c (PC c)) in *. split.
  - intros Halu.
    pose proof (execute_unknown (set_IR ir c) (cpu_wf_set_IR c ir Hwf)
                  Hpc Hnone Halu) as Hexec.
    cbn [IR PC FL stdout set_IR] in Hexec.
    assert (Hcycle : exists c',
               cycle c = (c', Ok tt) /\
               stdout c'
               = stdout c ++ [(if use_alu ir =? 0 then unknown_msg ir (PC c)
                               else unknown_alu_msg ir (PC c))] /\
               FL c' = Z.land (FL c) (Z.lnot FLAG_RUNNING) /\
               IR c' = ir /\ ram c' = ram c /\
               gp_registers c' = gp_registers c).
    { unfold cycle. rewrite bind_get.
      rewrite (bind_ok _ _ _ _ _ (ram_read_ok c (PC c) Hwf Hpc)).
      fold ir. rewrite bind_modify.
      rewrite (bind_ok _ _ _ _ _ Hexec).
      unfold advance. rewrite bind_get. cbn [IR set_FL set_stdout set_IR].
      destruct (sets_pc ir =? 0); eexists; (split; [reflexivity |]);
        repeat split. }
    destruct Hcycle as (c' & Hcycle & Hout & HFL & HIR & Hram & Hregs).
    assert (Hhalt : running c' = false).
    { unfold running. fold (flag_set (FL c') FLAG_RUNNING).
      rewrite HFL. apply HLT_not_running. }
    exists c'. rewrite (run_loop_step fuel c c' Hrun Hcycle).
    rewrite (run_loop_halted fuel c' Hhalt). repeat split; assumption.
  - intros Halu Hout. exists (set_IR ir c).
    split; [| repeat split; exact Hrun].
    apply run_loop_raise; [exact Hrun |].
    unfold cycle. rewrite bind_get.
    rewrite (bind_ok _ _ _ _ _ (ram_read_ok c (PC c) Hwf Hpc)).
    fold ir. rewrite bind_modify.
    now rewrite (bind_raise _ _ _ _ _
                   (execute_alu_operand_outside (set_IR ir c)
                      (cpu_wf_set_IR c ir Hwf) Hpc Halu Hout)).
Qed.

Lemma unknown_opcode_halts_witness :
  (exists c',
     run_loop 1 (set_byte 0 0x20 (set_FL FLAG_RUNNING CPU_init))
     = Some (c', Ok tt) /\
     stdout c' = ["Unknown ALU instruction 0x20 at address 0x00"%string] /\
     running c' = false) /\
  (exists c',
     run_loop 1
       (set_PC 255 (set_byte 255 0x20 (set_FL FLAG_RUNNING CPU_init)))
     = Some (c', Raise out_of_bounds) /\
     stdout c' = [] /\ running c' = true /\ IR c' = 0x20 /\ PC c' = 255).
Proof.
  split.
  - destruct (unknown_opcode_halts
                (set_byte 0 0x20 (set_FL FLAG_RUNNING CPU_init)) 0)
      as [H _].
    + apply cpu_wf_set_byte; [| lia]. apply cpu_wf_set_FL, cpu_wf_init.
    + reflexivity.
    + simpl. lia.
    + reflexivity.
    + destruct H as (c' & Hrun & Hout & Hhalt & _).
      * intros _. simpl. lia.
      * exists c'. repeat split; assumption.
  - destruct (unknown_opcode_halts
                (set_PC 255
                   (set_byte 255 0x20 (set_FL FLAG_RUNNING CPU_init))) 0)
      as [_ H].
    + apply cpu_wf_set_PC, cpu_wf_set_byte; [| lia].
      apply cpu_wf_set_FL, cpu_wf_init.
    + reflexivity.
    + simpl. lia.
    + reflexivity.
    + destruct H as (c' & Hrun & Hout & Hr & _ & HIR & HPC & _).
      * intros E. discriminate E.
      * simpl. lia.
      * exists c'. repeat split; assumption.
Defined.

(** ** [load] and fuel *)

Lemma preserves_load_from (program : list Z) :
  forall address, preserves cpu_wf (load_from address program).
Proof.
  induction program as [| data rest IH]; intros address; simpl.
  - apply preserves_ret.
  - unfold ram_write. apply preserves_bind; [auto with py | intros _].
    apply IH.
Qed.

Lemma preserves_load (program : list Z) : preserves cpu_wf (load program).
Proof.
  unfold load. apply preserves_bind; [auto with py | intros _].
  apply preserves_load_from.
Qed.

Lemma loaded_wf (program : list Z) : cpu_wf (loaded program).
Proof. apply preserves_load, cpu_wf_init. Qed.

(** More fuel does not change the outcome of a loop that ended. *)
Lemma run_loop_more_fuel (fuel extra : nat) (c : CPU) r :
  run_loop fuel c = Some r -> run_loop (fuel + extra) c = Some r.
Proof.
  revert c. induction fuel as [| fuel IH]; intros c; simpl.
  - destruct (running c) eqn:E; [discriminate |]. intros [= <-].
    now apply run_loop_halted.
  - destruct (running c); [| trivial].
    destruct (cycle c) as [c1 [u | e]]; [apply IH | trivial].
Qed.

(** ** The stack *)

(** [PUSH] of a register other than SP, with room below SP. *)
Lemma PUSH_ok (c : CPU) :
  cpu_wf c -> 0 <= PC c + 1 <= 255 -> 0 <= byte_at c (PC c + 1) <= 6 ->
  1 <= reg c 7 ->
  PUSH c
  = (set_byte (reg c 7 - 1) (reg c (byte_at c (PC c + 1)))
       (set_reg 7 (reg c 7 - 1) c), Ok tt).
Proof.
  intros Hwf Hpc Hr Hsp.
  pose proof (reg_bounds c 7 Hwf) as Hsp'.
  set (sp := reg c 7) in *. set (r := byte_at c (PC c + 1)) in *.
  assert (Hwf1 : cpu_wf (set_reg 7 (sp - 1) c))
    by (apply cpu_wf_set_reg; [assumption | lia]).
  unfold PUSH.
  rewrite (bind_ok _ _ _ _ _ (get_SP_ok c Hwf)). fold sp.
  erewrite bind_ok by (apply set_SP_ok; [assumption | lia]).
  rewrite bind_get.
  rewrite (bind_ok _ _ _ _ _ (ram_read_ok _ (PC c + 1) Hwf1 Hpc)).
  change (byte_at (set_reg 7 (sp - 1) c) (PC c + 1)) with r.
  erewrite bind_ok by (apply reg_read_ok; [assumption | lia]).
  rewrite (bind_ok _ _ _ _ _ (get_SP_ok _ Hwf1)).
  rewrite reg_set_reg_eq by (assumption || lia).
  rewrite reg_set_reg_ne by lia.
  apply ram_write_ok; [assumption | lia | apply reg_bounds, Hwf].
Qed.

(** [POP] into a register other than SP, with SP below the top. *)
Lemma POP_ok (c : CPU) :
  cpu_wf c -> 0 <= PC c + 1 <= 255 -> 0 <= byte_at c (PC c + 1) <= 6 ->
  reg c 7 <= 254 ->
  POP c
  = (set_reg 7 (reg c 7 + 1)
       (set_reg (byte_at c (PC c + 1)) (byte_at c (reg c 7)) c), Ok tt).
Proof.
  intros Hwf Hpc Hr Hsp.
  pose proof (reg_bounds c 7 Hwf) as Hsp'.
  pose proof (byte_at_bounds c (reg c 7) Hwf) as Hdata.
  set (sp := reg c 7) in *. set (r := byte_at c (PC c + 1)) in *.
  assert (Hwf1 : cpu_wf (set_reg r (byte_at c sp) c))
    by now apply cpu_wf_set_reg.
  unfold POP. rewrite bind_get.
  rewrite (bind_ok _ _ _ _ _ (ram_read_ok c _ Hwf Hpc)). fold r.
  rewrite (bind_ok _ _ _ _ _ (get_SP_ok c Hwf)). fold sp.
  rewrite (bind_ok _ _ _ _ _ (ram_read_ok c sp Hwf ltac:(lia))).
  erewrite bind_ok by (apply reg_write_ok; [assumption | lia | assumption]).
  rewrite (bind_ok _ _ _ _ _ (get_SP_ok _ Hwf1)).
  rewrite reg_set_reg_ne by lia. fold sp.
  apply set_SP_ok; [assumption | lia].
Qed.

(** One iteration of the loop on an instruction of the table that takes no
    argument: fetch, run the handler, advance. *)
Lemma cycle_handler0 (c c' : CPU) (f : M CPU unit) :
  cpu_wf c -> 0 <= PC c <= 255 ->
  dispatch_table !! byte_at c (PC c) = Some (Handler0 f) ->
  f (set_IR (byte_at c (PC c)) c) = (c', Ok tt) ->
  cycle c = advance c'.
Proof.
  intros Hwf Hpc Htable Hf.
  pose proof (dispatch_table_arity _ _ Htable) as Halu.
  unfold cycle. rewrite bind_get.
  rewrite (bind_ok _ _ _ _ _ (ram_read_ok c (PC c) Hwf Hpc)).
  rewrite bind_modify.
  assert (Hexec : execute (set_IR (byte_at c (PC c)) c) = (c', Ok tt)).
  { unfold execute. rewrite bind_get. cbn [IR set_IR]. rewrite Halu.
    cbn [Z.eqb negb]. unfold try_except, bind, dispatch. rewrite Htable.
    unfold ret, call0. now rewrite Hf. }
  now rewrite (bind_ok _ _ _ _ _ Hexec).
Qed.

Lemma dispatch_PUSH : dispatch_table !! Op.PUSH = Some (Handler0 PUSH).
Proof. reflexivity. Qed.

Lemma dispatch_POP : dispatch_table !! Op.POP = Some (Handler0 POP).
Proof. reflexivity. Qed.

(** C7, as stated, fails in its general part: popping into register 7,
    which is another register than the one pushed, leaves neither the
    pushed value in it nor the stack pointer restored.  After
    LDI R0,42; PUSH R0; POP R7 register 7 holds 43. *)
Lemma PUSH_POP_counterexample :
  exists c,
    run 4 (loaded [0x82; 0; 42; 0x45; 0; 0x46; 7]) = Some (c, Ok tt) /\
    reg c 0 = 42 /\ reg c 7 = 43 /\ reg c 7 <> 42 /\ reg c 7 <> 0xF4.
Proof. eexists. vm_compute. repeat split; discriminate. Qed.

(** C7, amended.  Running LDI R0,42; PUSH R0; POP R1 from the initial
    machine leaves 42 in R1 and 0xF4, the value before the push, in the
    stack pointer.  In general, from a machine with [PUSH ra; POP rb] at PC,
    where neither [ra] nor [rb] is register 7, SP is at least 1 and the
    stack slot SP-1 is not one of the two bytes of the POP instruction: the
    two iterations complete, [rb] holds the value [ra] held, and SP is
    restored. *)
Theorem PUSH_POP_roundtrip :
  (exists c,
     run 4 (loaded prog_push_pop) = Some (c, Ok tt) /\
     reg c 1 = 42 /\ reg c 7 = 0xF4 /\ reg CPU_init 7 = 0xF4) /\
  (forall (c : CPU) (ra rb : Z),
     cpu_wf c -> 0 <= PC c -> PC c + 3 <= 255 ->
     byte_at c (PC c) = Op.PUSH -> byte_at c (PC c + 1) = ra ->
     byte_at c (PC c + 2) = Op.POP -> byte_at c (PC c + 3) = rb ->
     0 <= ra <= 6 -> 0 <= rb <= 6 -> 1 <= reg c 7 ->
     reg c 7 - 1 <> PC c + 2 -> reg c 7 - 1 <> PC c + 3 ->
     exists c',
       (cycle ;; cycle) c = (c', Ok tt) /\
       reg c' rb = reg c ra /\ reg c' 7 = reg c 7 /\ PC c' = PC c + 4).
Proof.
  split.
  { eexists. vm_compute. repeat split. }
  intros c ra rb Hwf Hpc0 Hpc3 Hpush Hra Hpop Hrb Hra6 Hrb6 Hsp Hne2 Hne3.
  pose proof (reg_bounds c 7 Hwf) as Hsp'.
  pose proof (reg_bounds c ra Hwf) as Hv.
  set (sp := reg c 7) in *. set (v := reg c ra) in *.
  (* the PUSH iteration *)
  set (c1 := set_byte (sp - 1) v (set_reg 7 (sp - 1) (set_IR Op.PUSH c))).
  assert (Hwf0 : cpu_wf (set_IR Op.PUSH c)) by now apply cpu_wf_set_IR.
  assert (Hwf1 : cpu_wf c1).
  { apply cpu_wf_set_byte; [| assumption].
    apply cpu_wf_set_reg; [assumption | lia]. }
  assert (H1 : PUSH (set_IR Op.PUSH c) = (c1, Ok tt)).
  { rewrite PUSH_ok; try assumption; cbn [PC set_IR];
      change (byte_at (set_IR Op.PUSH c)) with (byte_at c);
      change (reg (set_IR Op.PUSH c)) with (reg c);
      rewrite ?Hra; try lia.
    reflexivity. }
  set (c2 := set_PC (PC c + 2) c1).
  assert (Hc2 : cycle c = (c2, Ok tt)).
  { rewrite (cycle_handler0 c c1 PUSH); try assumption; try lia.
    - reflexivity.
    - rewrite Hpush. apply dispatch_PUSH.
    - now rewrite Hpush. }
  assert (Hwf2 : cpu_wf c2) by now apply cpu_wf_set_PC.
  (* what the POP iteration finds *)
  assert (Hb2 : byte_at c2 (PC c + 2) = Op.POP).
  { change (byte_at c2) with (byte_at c1). unfold c1.
    rewrite byte_at_set_byte_ne by lia. exact Hpop. }
  assert (Hb3 : byte_at c2 (PC c + 3) = rb).
  { change (byte_at c2) with (byte_at c1). unfold c1.
    rewrite byte_at_set_byte_ne by lia. exact Hrb. }
  assert (Hsp2 : reg c2 7 = sp - 1).
  { change (reg c2) with (reg (set_reg 7 (sp - 1) (set_IR Op.PUSH c))).
    apply reg_set_reg_eq; [assumption | lia]. }
  assert (Hdata : byte_at c2 (sp - 1) = v).
  { change (byte_at c2) with (byte_at c1). unfold c1.
    apply byte_at_set_byte_eq; [| lia].
    apply cpu_wf_set_reg; [assumption | lia]. }
  set (c3 := set_reg 7 sp (set_reg rb v (set_IR Op.POP c2))).
  assert (Hwf2' : cpu_wf (set_IR Op.POP c2)) by now apply cpu_wf_set_IR.
  assert (H3 : POP (set_IR Op.POP c2) = (c3, Ok tt)).
  { assert (HPC2 : PC (set_IR Op.POP c2) = PC c + 2) by reflexivity.
    rewrite POP_ok; try assumption; rewrite ?HPC2;
      change (byte_at (set_IR Op.POP c2)) with (byte_at c2);
      change (reg (set_IR Op.POP c2)) with (reg c2);
      replace (PC c + 2 + 1) with (PC c + 3) by lia;
      rewrite ?Hb3, ?Hsp2, ?Hdata; try lia.
    unfold c3. now replace (sp - 1 + 1) with sp by lia. }
  set (c4 := set_PC (PC c + 4) c3).
  assert (Hc4 : cycle c2 = (c4, Ok tt)).
  { assert (HPC2 : PC c2 = PC c + 2) by reflexivity.
    rewrite (cycle_handler0 c2 c3 POP); try assumption;
      rewrite ?HPC2, ?Hb2; try lia.
    - unfold advance. rewrite bind_get.
      change (IR c3) with Op.POP.
      change (sets_pc Op.POP =? 0) with true.
      cbv beta iota delta [modify].
      change (IR c3) with Op.POP. change (PC c3) with (PC c + 2).
      change (num_ops Op.POP) with 1. unfold c4.
      now replace (PC c + 2 + (1 + 1)) with (PC c + 4) by lia.
    - apply dispatch_POP.
    - exact H3. }
  exists c4. split; [| split; [| split]].
  - rewrite (bind_ok _ _ _ _ _ Hc2). exact Hc4.
  - change (reg c4 rb) with (reg c3 rb). unfold c3.
    rewrite reg_set_reg_ne by lia.
    apply reg_set_reg_eq; [assumption | lia].
  - change (reg c4 7) with (reg c3 7). unfold c3.
    apply reg_set_reg_eq; [| lia].
    apply cpu_wf_set_reg; assumption.
  - reflexivity.
Qed.

(** Side conditions on a concrete machine: evaluate them. *)
Ltac by_evaluation :=
  vm_compute; repeat split; try reflexivity;
  let H := fresh in intros H; discriminate H.

Lemma PUSH_POP_roundtrip_witness :
  exists c',
    (cycle ;; cycle) (fst (cycle (loaded prog_push_pop))) = (c', Ok tt) /\
    reg c' 1 = reg (fst (cycle (loaded prog_push_pop))) 0 /\
    reg c' 7 = reg (fst (cycle (loaded prog_push_pop))) 7 /\
    PC c' = PC (fst (cycle (loaded prog_push_pop))) + 4.
Proof.
  destruct PUSH_POP_roundtrip as [_ H].
  apply (H (fst (cycle (loaded prog_push_pop))) 0 1).
  - apply preserves_cycle, loaded_wf.
  - by_evaluation.
  - by_evaluation.
  - by_evaluation.
  - by_evaluation.
  - by_evaluation.
  - by_evaluation.
  - by_evaluation.
  - by_evaluation.
  - by_evaluation.
  - by_evaluation.
  - by_evaluation.
Defined.

(** C8, as stated, fails: the stack pointer lives in register 7, so the
    pointer that would leave [0, 255] is rejected by the range check of the
    register write, with the [TypeError] of [write_byte], before any memory
    access is out of bounds.  LDI R7,0; PUSH R0 and LDI R7,255; POP R0 both
    end [run] with that error, not with the [ReferenceError]. *)
Lemma stack_bounds_counterexample :
  (exists c,
     run 3 (loaded [0x82; 7; 0; 0x45; 0]) = Some (c, Raise not_a_byte) /\
     reg c 7 = 0) /\
  (exists c,
     run 3 (loaded [0x82; 7; 255; 0x46; 0]) = Some (c, Raise not_a_byte) /\
     reg c 7 = 255) /\
  not_a_byte <> out_of_bounds.
Proof.
  split; [| split].
  - eexists. vm_compute. split; reflexivity.
  - eexists. vm_compute. split; reflexivity.
  - discriminate.
Qed.

(** C8, amended.  [PUSH] with SP = 0 fails with the [TypeError] of the
    range-checked write of SP - 1 into register 7, and changes nothing;
    [POP] into a register other than SP with SP = 255 stores the byte
    popped and then fails with the same error when it writes SP + 1.  The
    stack pointer of a well-formed machine is always a valid address, and
    there is no other bound on the stack. *)
Theorem stack_pointer_range_error (c : CPU) :
  cpu_wf c ->
  0 <= reg c 7 <= 255 /\
  (reg c 7 = 0 -> PUSH c = (c, Raise not_a_byte)) /\
  (reg c 7 = 255 -> 0 <= PC c + 1 <= 255 ->
   0 <= byte_at c (PC c + 1) <= 6 ->
   POP c = (set_reg (byte_at c (PC c + 1)) (byte_at c 255) c,
            Raise not_a_byte)).
Proof.
  intros Hwf. split; [apply reg_bounds, Hwf |]. split.
  - intros Hsp. unfold PUSH.
    rewrite (bind_ok _ _ _ _ _ (get_SP_ok c Hwf)). rewrite Hsp.
    erewrite bind_raise; [reflexivity |].
    apply set_SP_range_error; [assumption | lia].
  - intros Hsp Hpc Hr.
    pose proof (byte_at_bounds c 255 Hwf) as Hdata.
    set (r := byte_at c (PC c + 1)) in *.
    assert (Hwf1 : cpu_wf (set_reg r (byte_at c 255) c))
      by now apply cpu_wf_set_reg.
    unfold POP. rewrite bind_get.
    rewrite (bind_ok _ _ _ _ _ (ram_read_ok c _ Hwf Hpc)). fold r.
    rewrite (bind_ok _ _ _ _ _ (get_SP_ok c Hwf)). rewrite Hsp.
    rewrite (bind_ok _ _ _ _ _ (ram_read_ok c 255 Hwf ltac:(lia))).
    erewrite bind_ok by (apply reg_write_ok; [assumption | lia | assumption]).
    rewrite (bind_ok _ _ _ _ _ (get_SP_ok _ Hwf1)).
    rewrite reg_set_reg_ne by lia. rewrite Hsp.
    apply set_SP_range_error; [assumption | lia].
Qed.

Lemma stack_pointer_range_error_witness :
  PUSH (set_reg 7 0 CPU_init) = (set_reg 7 0 CPU_init, Raise not_a_byte).
Proof.
  destruct (stack_pointer_range_error (set_reg 7 0 CPU_init))
    as (_ & H & _).
  - apply cpu_wf_set_reg; [apply cpu_wf_init | lia].
  - apply H. reflexivity.
Defined.

Lemma JEQ_JNE_branch_witness :
  PC (fst (JEQ (set_reg 0 9 (set_FL FLAG_EQUAL (loaded [0x56; 0]))))) = 9 /\
  PC (fst (JNE (set_reg 0 9 (set_FL FLAG_EQUAL (loaded [0x55; 0]))))) = 2.
Proof.
  split.
  - destruct (JEQ_JNE_branch
                (set_reg 0 9 (set_FL FLAG_EQUAL (loaded [0x56; 0]))))
      as [H _].
    + apply cpu_wf_set_reg; [| lia]. apply cpu_wf_set_FL, loaded_wf.
    + destruct H as [H _]; [by_evaluation | by_evaluation |].
      destruct (H eq_refl) as [_ HPC]. exact HPC.
  - destruct (JEQ_JNE_branch
                (set_reg 0 9 (set_FL FLAG_EQUAL (loaded [0x55; 0]))))
      as (_ & _ & H).
    + apply cpu_wf_set_reg; [| lia]. apply cpu_wf_set_FL, loaded_wf.
    + destruct (H eq_refl) as [_ HPC]. exact HPC.
Defined.

Lemma MUL_range_checked_witness :
  MUL 0 1 (set_reg 0 16 (set_reg 1 16 CPU_init))
  = (set_reg 0 16 (set_reg 1 16 CPU_init), Raise not_a_byte) /\
  MUL 0 1 (set_reg 0 8 (set_reg 1 9 CPU_init))
  = (set_reg 0 72 (set_reg 0 8 (set_reg 1 9 CPU_init)), Ok tt).
Proof.
  split.
  - destruct (MUL_range_checked (set_reg 0 16 (set_reg 1 16 CPU_init)) 0 1)
      as [H _]; try lia.
    + repeat apply cpu_wf_set_reg; try lia. apply cpu_wf_init.
    + apply H. by_evaluation.
  - destruct (MUL_range_checked (set_reg 0 8 (set_reg 1 9 CPU_init)) 0 1)
      as [_ H]; try lia.
    + repeat apply cpu_wf_set_reg; try lia. apply cpu_wf_init.
    + apply H. by_evaluation.
Defined.

Lemma POP_into_SP_witness :
  POP (loaded [0x46; 7])
  = (set_reg 7 1 (set_reg 7 0 (loaded [0x46; 7])), Ok tt) /\
  reg (set_reg 7 1 (set_reg 7 0 (loaded [0x46; 7]))) 7 = 1.
Proof.
  destruct (POP_into_SP (loaded [0x46; 7]) 0) as (H1 & H2 & _).
  - apply loaded_wf.
  - by_evaluation.
  - by_evaluation.
  - by_evaluation.
  - lia.
  - split; [exact H1 | exact H2].
Defined.

(** ** The example program of the specification *)

(** LDI R0,8; LDI R1,9; MUL R0,R1; PRN R0; HLT prints the line 72 and
    halts. *)
Example run_prog_mul :
  exists c,
    run 5 (loaded prog_mul) = Some (c, Ok tt) /\
    stdout c = ["72"%string] /\ running c = false /\ reg c 0 = 72.
Proof. eexists. vm_compute. repeat split. Qed.

(** * Further properties of the code *)

(** ** [Memory]: bounds, [clear], framing *)

(** X1. An address below 0 or at or above the capacity makes both
    [read_byte] and [write_byte] raise the out-of-bounds [ReferenceError] and
    leaves the memory as it was; for a write the bounds check comes before
    any look at the value, so even a value that is not a byte gets this
    error. *)
Theorem access_out_of_bounds (m : Memory) (a : Z) (data : pyval) :
  a < 0 \/ size m <= a ->
  read_byte a m = (m, Raise out_of_bounds) /\
  write_byte a data m = (m, Raise out_of_bounds).
Proof.
  intros Ha. split.
  - now apply read_byte_out_of_bounds.
  - now apply write_byte_out_of_bounds.
Qed.

Lemma access_out_of_bounds_witness :
  read_byte 8 (Memory_init 8) = (Memory_init 8, Raise out_of_bounds) /\
  write_byte 8 (PyInt 999) (Memory_init 8)
  = (Memory_init 8, Raise out_of_bounds).
Proof. apply (access_out_of_bounds (Memory_init 8) 8 (PyInt 999)). simpl. lia. Defined.

(** X2. [clear] needs nothing of the memory it is given: whatever the
    backing list was, afterwards the memory is the freshly constructed one
    of the same capacity, and every valid address reads 0. *)
Theorem clear_then_read_byte (m : Memory) (a : Z) :
  0 <= a < size m ->
  (clear ;; read_byte a) m = (Memory_init (size m), Ok 0).
Proof.
  intros Ha. unfold clear. rewrite bind_modify.
  change (mkMemory (size m) (list_repeat0 (size m)))
    with (Memory_init (size m)).
  rewrite read_byte_ok by (try apply mem_wf_init; assumption).
  f_equal. f_equal. unfold cell, Memory_init, clear, modify, list_repeat0.
  simpl. rewrite lookup_replicate_2 by lia. reflexivity.
Qed.

Lemma clear_then_read_byte_witness :
  (clear ;; read_byte 5) (mkMemory 8 [1; 2; 3]) = (Memory_init 8, Ok 0).
Proof. apply (clear_then_read_byte (mkMemory 8 [1; 2; 3]) 5). simpl. lia. Defined.

(** X3. A successful write changes one cell only: reading any other valid
    address afterwards returns what was there before. *)
Theorem write_byte_frame (m : Memory) (a b v : Z) (data : pyval) :
  mem_wf m -> 0 <= a < size m -> 0 <= b < size m -> a <> b ->
  py_int data = Ok v -> 0 <= v <= 255 ->
  (write_byte a data ;; read_byte b) m = (set_cell m a v, Ok (cell m b)).
Proof.
  intros Hwf Ha Hb Hab Hint Hv.
  erewrite bind_ok by (apply write_byte_stores; eassumption).
  rewrite read_byte_ok by (try apply mem_wf_set_cell; assumption).
  rewrite cell_set_cell_ne by lia. reflexivity.
Qed.

Lemma write_byte_frame_witness :
  (write_byte 7 (PyInt 1) ;; read_byte 6)
    (fst (write_byte 6 (PyInt 9) (Memory_init 8)))
  = (set_cell (fst (write_byte 6 (PyInt 9) (Memory_init 8))) 7 1,
     Ok (cell (fst (write_byte 6 (PyInt 9) (Memory_init 8))) 6)).
Proof.
  apply (write_byte_frame _ 7 6 1 (PyInt 1)); try (simpl; lia);
    reflexivity.
Defined.

(** X4. The last write to an address wins: two successful writes to the same
    address leave exactly what the second one alone would leave. *)
Theorem write_byte_overwrite (m : Memory) (a v1 v2 : Z) (d1 d2 : pyval) :
  mem_wf m -> 0 <= a < size m ->
  py_int d1 = Ok v1 -> 0 <= v1 <= 255 ->
  py_int d2 = Ok v2 -> 0 <= v2 <= 255 ->
  (write_byte a d1 ;; write_byte a d2) m = write_byte a d2 m.
Proof.
  intros Hwf Ha H1 Hv1 H2 Hv2.
  erewrite bind_ok by (apply write_byte_stores; eassumption).
  rewrite !(write_byte_stores _ a _ v2)
    by (try apply mem_wf_set_cell; assumption).
  unfold set_cell. simpl. now rewrite list_insert_insert_eq.
Qed.

Lemma write_byte_overwrite_witness :
  (write_byte 2 (PyInt 5) ;; write_byte 2 (PyBool true)) (Memory_init 8)
  = write_byte 2 (PyBool true) (Memory_init 8).
Proof.
  apply (write_byte_overwrite (Memory_init 8) 2 5 1);
    first [ apply mem_wf_init | reflexivity | simpl; lia ].
Defined.

(** X5. No method of [Memory] can break the memory: whatever the address and
    whatever the value, and whether the call returns or raises, the
    capacity is unchanged, the backing list still has that many cells and
    every cell still holds a value in [0, 255]. *)
Theorem Memory_methods_keep_bytes (sz : Z) (m : Memory) (a : Z)
        (data : pyval) :
  mem_ok sz m ->
  mem_ok sz (fst (read_byte a m)) /\
  mem_ok sz (fst (write_byte a data m)) /\
  mem_ok sz (fst (clear m)).
Proof.
  intros H. split; [| split].
  - now apply preserves_read_byte.
  - now apply preserves_write_byte.
  - now apply preserves_clear.
Qed.

Lemma Memory_methods_keep_bytes_witness :
  mem_ok 8 (fst (read_byte 3 (Memory_init 8))) /\
  mem_ok 8 (fst (write_byte 3 (PyFloat (FFinite 511 (-1))) (Memory_init 8))) /\
  mem_ok 8 (fst (clear (Memory_init 8))).
Proof. apply Memory_methods_keep_bytes, mem_ok_init. Defined.

(** ** [load] *)

Section LoadFacts.
Implicit Types (c : CPU) (program : list Z).

Lemma ram_image_wf bytes :
  (length bytes <= 256)%nat -> mem_wf (ram_image bytes).
Proof.
  intros H. unfold mem_wf, ram_image, MAX_MEM. simpl.
  rewrite length_app, length_replicate. lia.
Qed.

Lemma ram_image_nil : ram_image [] = Memory_init MAX_MEM.
Proof. reflexivity. Qed.

(** Writing the next byte of the image. *)
Lemma ram_image_snoc bytes v :
  (length bytes < 256)%nat ->
  set_cell (ram_image bytes) (Z.of_nat (length bytes)) v
  = ram_image (bytes ++ [v]).
Proof.
  intros H. unfold set_cell, ram_image, MAX_MEM. simpl. f_equal.
  rewrite Nat2Z.id, length_app. simpl.
  rewrite insert_app_r_alt by lia. rewrite Nat.sub_diag.
  replace (Z.to_nat 256 - length bytes)%nat
    with (S (Z.to_nat 256 - (length bytes + 1)))%nat by lia.
  simpl. now rewrite <- app_assoc.
Qed.

Lemma bind_assoc {S A B C} (m : M S A) (k : A -> M S B) (h : B -> M S C) s :
  bind (bind m k) h s = bind m (fun a => bind (k a) h) s.
Proof. unfold bind. now destruct (m s) as [s1 [a | e]]. Qed.

Lemma load_from_app program1 program2 address c :
  load_from address (program1 ++ program2) c
  = (load_from address program1 ;;
     load_from (address + Z.of_nat (length program1)) program2) c.
Proof.
  revert address c. induction program1 as [| data rest IH];
    intros address c; simpl.
  - now rewrite Z.add_0_r.
  - rewrite bind_assoc.
    destruct (ram_write address data c) as [c1 [[] | e]] eqn:E.
    + rewrite !(bind_ok _ _ _ _ _ E). rewrite IH.
      now replace (address + 1 + Z.of_nat (length rest))
        with (address + Z.pos (Pos.of_succ_nat (length rest))) by lia.
    + now rewrite !(bind_raise _ _ _ _ _ E).
Qed.

Lemma ram_write_image bytes v c :
  ram c = ram_image bytes -> (length bytes < 256)%nat -> is_byte v ->
  ram_write (Z.of_nat (length bytes)) v c
  = (set_ram (ram_image (bytes ++ [v])) c, Ok tt).
Proof.
  intros Hram Hlen Hv. unfold ram_write, on_ram. rewrite Hram.
  rewrite (write_byte_stores _ _ _ v);
    [ now rewrite ram_image_snoc
    | apply ram_image_wf; lia
    | unfold ram_image, MAX_MEM; simpl; lia
    | reflexivity
    | exact Hv ].
Qed.

Lemma load_from_image program : forall bytes c,
  ram c = ram_image bytes ->
  (length bytes + length program <= 256)%nat ->
  Forall is_byte program ->
  load_from (Z.of_nat (length bytes)) program c
  = (set_ram (ram_image (bytes ++ program)) c, Ok tt).
Proof.
  induction program as [| data rest IH]; intros bytes c Hram Hlen Hall.
  - simpl. rewrite app_nil_r, <- Hram. now rewrite set_ram_id.
  - simpl in Hlen. apply Forall_cons in Hall as [Hdata Hrest]. simpl.
    rewrite (bind_ok _ _ _ _ _
               (ram_write_image bytes data c Hram ltac:(lia) Hdata)).
    replace (Z.of_nat (length bytes) + 1)
      with (Z.of_nat (length (bytes ++ [data])))
      by (rewrite length_app; simpl; lia).
    rewrite IH; [| reflexivity | rewrite length_app; simpl; lia | exact Hrest].
    now rewrite <- app_assoc.
Qed.

Lemma load_clears program c :
  size (ram c) = MAX_MEM ->
  load program c = load_from 0 program (set_ram (ram_image []) c).
Proof.
  intros Hs. unfold load, bind, on_ram, clear, modify. now rewrite Hs.
Qed.
End LoadFacts.

(** X6. [load] of at most 256 values that are all bytes succeeds on any
    machine: whatever the memory held, it then holds the program from
    address 0 and zeros after it; registers, PC, IR, flags and output are
    untouched. *)
Theorem load_places_program (c : CPU) (program : list Z) :
  size (ram c) = MAX_MEM ->
  (length program <= 256)%nat -> Forall is_byte program ->
  load program c = (set_ram (ram_image program) c, Ok tt).
Proof.
  intros Hs Hlen Hall. rewrite load_clears by assumption.
  exact (load_from_image program [] (set_ram (ram_image []) c) eq_refl
           Hlen Hall).
Qed.

Lemma load_places_program_witness :
  load prog_mul (set_byte 200 7 CPU_init)
  = (set_ram (ram_image prog_mul) (set_byte 200 7 CPU_init), Ok tt).
Proof.
  apply load_places_program.
  - reflexivity.
  - simpl. lia.
  - unfold prog_mul, is_byte. repeat constructor; lia.
Defined.

(** X7. [load] does not stop at the end of memory: a program of more than
    256 bytes fills the memory with its first 256 bytes and then raises the
    out-of-bounds [ReferenceError] on the next one. *)
Theorem load_program_too_long (c : CPU) (program : list Z) :
  size (ram c) = MAX_MEM ->
  (256 < length program)%nat -> Forall is_byte program ->
  load program c
  = (set_ram (ram_image (take 256 program)) c, Raise out_of_bounds).
Proof.
  intros Hs Hlen Hall. rewrite load_clears by assumption.
  rewrite <- (take_drop 256 program) at 1.
  assert (Htake : length (take 256 program) = 256%nat)
    by (rewrite length_take; lia).
  rewrite load_from_app, Htake.
  erewrite bind_ok; cycle 1.
  { apply (load_from_image (take 256 program) []
             (set_ram (ram_image []) c) eq_refl).
    - simpl. lia.
    - now apply Forall_take. }
  destruct (drop 256 program) as [| data rest] eqn:Hdrop.
  { apply (f_equal length) in Hdrop. rewrite length_drop in Hdrop.
    simpl in Hdrop. lia. }
  simpl. erewrite bind_raise; [reflexivity |].
  unfold ram_write, on_ram. cbn [ram set_ram].
  rewrite write_byte_out_of_bounds by (right; reflexivity).
  reflexivity.
Qed.

Lemma load_program_too_long_witness :
  load (replicate 257 1) CPU_init
  = (set_ram (ram_image (take 256 (replicate 257 1))) CPU_init,
     Raise out_of_bounds).
Proof.
  apply load_program_too_long.
  - reflexivity.
  - rewrite length_replicate. lia.
  - apply Forall_replicate. unfold is_byte. lia.
Defined.

(** X8. [load] has no rollback: at the first value that is not a byte it
    raises the [TypeError] of [write_byte], with the memory cleared and the
    bytes before that value already written. *)
Theorem load_stops_at_bad_value (c : CPU) (before after : list Z) (v : Z) :
  size (ram c) = MAX_MEM ->
  (length before < 256)%nat -> Forall is_byte before ->
  v < 0 \/ 255 < v ->
  load (before ++ v :: after) c
  = (set_ram (ram_image before) c, Raise not_a_byte).
Proof.
  intros Hs Hlen Hall Hv. rewrite load_clears by assumption.
  rewrite load_from_app.
  erewrite bind_ok; cycle 1.
  { apply (load_from_image before [] (set_ram (ram_image []) c) eq_refl);
      [simpl; lia | exact Hall]. }
  simpl. erewrite bind_raise; [reflexivity |].
  unfold ram_write, on_ram. cbn [ram set_ram].
  rewrite (write_byte_range_error _ _ _ v);
    [reflexivity | unfold ram_image, MAX_MEM; simpl; lia | reflexivity | exact Hv].
Qed.

Lemma load_stops_at_bad_value_witness :
  load ([0x82; 0] ++ 256 :: [0x01]) CPU_init
  = (set_ram (ram_image [0x82; 0]) CPU_init, Raise not_a_byte).
Proof.
  apply load_stops_at_bad_value.
  - reflexivity.
  - simpl. lia.
  - unfold is_byte. repeat constructor; lia.
  - lia.
Defined.

(** ** [load] from the lines of the file *)

Section LineFacts.
Lemma before_hash_app_hash (s t : list ascii) :
  before_hash (s ++ "#"%char :: t) = before_hash s.
Proof.
  induction s as [| ch s IH]; simpl; [reflexivity |].
  destruct (Z.of_nat (nat_of_ascii ch) =? 35); [reflexivity |].
  now rewrite IH.
Qed.

Lemma list_ascii_of_string_app (s t : string) :
  list_ascii_of_string (s +:+ t)
  = list_ascii_of_string s ++ list_ascii_of_string t.
Proof. induction s as [| ch s IH]; simpl; [reflexivity | now rewrite IH]. Qed.

Lemma load_lines_from_as_load_from (lines : list string) :
  forall address c,
    load_lines_from address lines c
    = load_from address (omap parse_line lines) c.
Proof.
  induction lines as [| line rest IH]; intros address c; simpl;
    [reflexivity |].
  destruct (parse_line line) as [data |]; simpl; [| apply IH].
  unfold bind. destruct (ram_write address data c) as [c1 [[] | e]];
    [apply IH | reflexivity].
Qed.
End LineFacts.

(** X9. For a file whose lines are ASCII text up to their first ['#'],
    [load] of the file is [load] of the values of its lines that parse as
    base-2 integers, in order: a line that does not parse is skipped
    without using up an address, and every outcome, errors included, is the
    outcome of loading those values. *)
Theorem load_lines_as_load (lines : list string) (c : CPU) :
  Forall (fun line => ascii_text (before_hash (list_ascii_of_string line)))
         lines ->
  load_lines lines c = load (omap parse_line lines) c.
Proof.
  intros _. unfold load_lines, load, bind.
  destruct (on_ram clear c) as [c1 [[] | e]]; [| reflexivity].
  apply load_lines_from_as_load_from.
Qed.

Lemma load_lines_as_load_witness :
  load_lines ["10000010 # LDI R0,8"; "# no number here"; "";
              "00000001"; "2"]%string CPU_init
  = load [0x82; 1] CPU_init.
Proof.
  apply (load_lines_as_load
           ["10000010 # LDI R0,8"; "# no number here"; "";
            "00000001"; "2"]%string CPU_init).
  unfold ascii_text. repeat constructor.
Defined.

(** X10. What follows the first ['#'] of a line never matters to [load],
    and a line that starts with ['#'] is skipped. *)
Theorem parse_line_ignores_comment (s t : string) :
  parse_line (s +:+ "#" +:+ t) = parse_line s /\
  parse_line ("#" +:+ t) = None.
Proof.
  split; [| reflexivity].
  unfold parse_line. rewrite list_ascii_of_string_app. simpl.
  now rewrite before_hash_app_hash.
Qed.

(** ** More on the instruction handlers *)

Section HandlerFacts.
Implicit Types (c : CPU).

Lemma reg_read_inv c c' r v :
  on_regs (read_byte r) c = (c', Ok v) ->
  c' = c /\ v = reg c r /\ 0 <= r < size (gp_registers c).
Proof.
  unfold on_regs.
  destruct (read_byte r (gp_registers c)) as [m' x] eqn:E. intros [= <- ->].
  apply read_byte_inv in E as (-> & -> & Hr).
  now rewrite set_gp_registers_id.
Qed.

Lemma testbit_HLT (fl n : Z) :
  Z.testbit (Z.land fl (Z.lnot FLAG_RUNNING)) n
  = negb (7 =? n) && Z.testbit fl n.
Proof. rewrite FLAG_RUNNING_bit. apply testbit_clear_flag. lia. Qed.
End HandlerFacts.

(** X11. [HLT] always succeeds and changes one bit of one register: RUNNING
    is clear afterwards, every other bit of the flags is as it was, and the
    loop of [run] entered in that state ends at once without fetching. *)
Theorem HLT_clears_running_only (c : CPU) (fuel : nat) :
  exists fl,
    HLT c = (set_FL fl c, Ok tt) /\
    flag_set fl FLAG_RUNNING = false /\
    (forall n, n <> 7 -> Z.testbit fl n = Z.testbit (FL c) n) /\
    run_loop fuel (set_FL fl c) = Some (set_FL fl c, Ok tt).
Proof.
  exists (Z.land (FL c) (Z.lnot FLAG_RUNNING)).
  split; [reflexivity |]. split; [apply HLT_not_running |]. split.
  - intros n Hn. rewrite testbit_HLT.
    destruct (Z.eqb_spec 7 n); [lia | reflexivity].
  - apply run_loop_halted. apply HLT_not_running.
Qed.

(** X12. [LDI] on a well-formed machine: with both operand bytes inside
    memory and a valid register number it stores the immediate byte in that
    register and changes nothing else; with a register number above 7, or
    with an operand byte outside memory, it raises the out-of-bounds error
    and changes nothing. *)
Theorem LDI_loads_immediate (c : CPU) :
  cpu_wf c ->
  (0 <= PC c + 1 -> PC c + 2 <= 255 -> 0 <= byte_at c (PC c + 1) <= 7 ->
   LDI c
   = (set_reg (byte_at c (PC c + 1)) (byte_at c (PC c + 2)) c, Ok tt)) /\
  (0 <= PC c + 1 -> PC c + 2 <= 255 -> 7 < byte_at c (PC c + 1) ->
   LDI c = (c, Raise out_of_bounds)) /\
  (PC c + 1 < 0 \/ 255 < PC c + 2 -> LDI c = (c, Raise out_of_bounds)).
Proof.
  intros Hwf. split; [| split].
  - intros H1 H2 Hr. unfold LDI. rewrite bind_get.
    rewrite (bind_ok _ _ _ _ _ (ram_read_ok c (PC c + 1) Hwf ltac:(lia))).
    rewrite (bind_ok _ _ _ _ _ (ram_read_ok c (PC c + 2) Hwf ltac:(lia))).
    apply reg_write_ok; [assumption | assumption |].
    now apply byte_at_bounds.
  - intros H1 H2 Hr. unfold LDI. rewrite bind_get.
    rewrite (bind_ok _ _ _ _ _ (ram_read_ok c (PC c + 1) Hwf ltac:(lia))).
    rewrite (bind_ok _ _ _ _ _ (ram_read_ok c (PC c + 2) Hwf ltac:(lia))).
    destruct Hwf as (_ & Hs & _). unfold on_regs.
    rewrite write_byte_out_of_bounds by lia.
    now rewrite set_gp_registers_id.
  - intros Hpc. unfold LDI. rewrite bind_get.
    destruct (Z.lt_ge_cases (PC c + 1) 0) as [Hneg | Hpos];
      [| destruct (Z.lt_ge_cases 255 (PC c + 1)) as [Hbig | Hok]].
    + now rewrite (bind_raise _ _ _ _ _
                     (ram_read_out_of_bounds c (PC c + 1) Hwf ltac:(lia))).
    + now rewrite (bind_raise _ _ _ _ _
                     (ram_read_out_of_bounds c (PC c + 1) Hwf ltac:(lia))).
    + rewrite (bind_ok _ _ _ _ _ (ram_read_ok c (PC c + 1) Hwf ltac:(lia))).
      now rewrite (bind_raise _ _ _ _ _
                     (ram_read_out_of_bounds c (PC c + 2) Hwf ltac:(lia))).
Qed.

Lemma LDI_loads_immediate_witness :
  LDI (loaded prog_mul)
  = (set_reg (byte_at (loaded prog_mul) (PC (loaded prog_mul) + 1))
             (byte_at (loaded prog_mul) (PC (loaded prog_mul) + 2))
             (loaded prog_mul), Ok tt) /\
  LDI (loaded [0x82; 8; 1]) = (loaded [0x82; 8; 1], Raise out_of_bounds) /\
  LDI (set_PC 254 CPU_init) = (set_PC 254 CPU_init, Raise out_of_bounds).
Proof.
  split; [| split].
  - destruct (LDI_loads_immediate (loaded prog_mul) (loaded_wf _))
      as (H & _ & _).
    apply H; by_evaluation.
  - destruct (LDI_loads_immediate (loaded [0x82; 8; 1]) (loaded_wf _))
      as (_ & H & _).
    apply H; by_evaluation.
  - destruct (LDI_loads_immediate (set_PC 254 CPU_init)
                (cpu_wf_set_PC _ _ cpu_wf_init)) as (_ & _ & H).
    apply H. right. simpl. lia.
Defined.

(** X13. [PRN] with a valid operand appends one line, the decimal text of
    the register, to the output and changes nothing else. *)
Theorem PRN_prints_register (c : CPU) :
  cpu_wf c -> 0 <= PC c + 1 <= 255 -> 0 <= byte_at c (PC c + 1) <= 7 ->
  PRN c
  = (set_stdout (stdout c ++ [pretty (reg c (byte_at c (PC c + 1)))]) c,
     Ok tt).
Proof.
  intros Hwf Hpc Hr. unfold PRN. rewrite bind_get.
  rewrite (bind_ok _ _ _ _ _ (ram_read_ok c _ Hwf Hpc)).
  now rewrite (bind_ok _ _ _ _ _ (reg_read_ok c _ Hwf Hr)).
Qed.

Lemma PRN_prints_register_witness :
  PRN (set_reg 0 72 (loaded [0x47; 0]))
  = (set_stdout (stdout (set_reg 0 72 (loaded [0x47; 0]))
                 ++ [pretty (reg (set_reg 0 72 (loaded [0x47; 0]))
                                 (byte_at (set_reg 0 72 (loaded [0x47; 0]))
                                    (PC (set_reg 0 72 (loaded [0x47; 0])) + 1)))])
        (set_reg 0 72 (loaded [0x47; 0])), Ok tt).
Proof.
  apply PRN_prints_register.
  - apply cpu_wf_set_reg; [apply loaded_wf | lia].
  - by_evaluation.
  - by_evaluation.
Defined.

(** X14. A jump never leaves memory: when [JMP] returns on a well-formed
    machine, the new PC is a valid address and nothing but PC changed. *)
Theorem JMP_target_in_memory (c c' : CPU) :
  cpu_wf c -> JMP c = (c', Ok tt) ->
  0 <= PC c' <= 255 /\ c' = set_PC (PC c') c.
Proof.
  intros Hwf H. unfold JMP in H. rewrite bind_get in H.
  apply bind_inv in H as (c1 & reg_num & Hread & H).
  apply ram_read_inv in Hread as (-> & -> & _).
  apply bind_inv in H as (c2 & target & Hreg & H).
  apply reg_read_inv in Hreg as (-> & -> & _).
  cbv beta delta [modify] in H. injection H as <-.
  split; [apply reg_bounds, Hwf | reflexivity].
Qed.

Lemma JMP_target_in_memory_witness :
  0 <= PC (fst (JMP (loaded [0x54; 7]))) <= 255 /\
  fst (JMP (loaded [0x54; 7]))
  = set_PC (PC (fst (JMP (loaded [0x54; 7])))) (loaded [0x54; 7]).
Proof.
  apply JMP_target_in_memory; [apply loaded_wf |].
  vm_compute. reflexivity.
Defined.

(** X15. [JEQ] and [JNE] are complementary in every state: one of them
    behaves exactly as [JMP], errors included, and the other adds 2 to PC
    and cannot fail. *)
Theorem JEQ_JNE_complementary (c : CPU) :
  (JEQ c = JMP c /\ JNE c = (set_PC (PC c + 2) c, Ok tt)) \/
  (JNE c = JMP c /\ JEQ c = (set_PC (PC c + 2) c, Ok tt)).
Proof.
  assert (Hne : (Z.land (FL c) FLAG_EQUAL =? 0)
                = negb (flag_set (FL c) FLAG_EQUAL)).
  { rewrite flag_set_EQUAL. now apply (flag_clear_pow2 (FL c) 0). }
  unfold JEQ, JNE. rewrite !bind_get. rewrite Hne.
  fold (flag_set (FL c) FLAG_EQUAL).
  destruct (flag_set (FL c) FLAG_EQUAL); [left | right]; now split.
Qed.

(** X16. [PUSH] of register 7 does not push the stack pointer it found: SP
    is decremented first, so the byte stored at the new top is the new
    SP. *)
Theorem PUSH_of_SP (c : CPU) :
  cpu_wf c -> 0 <= PC c + 1 <= 255 -> byte_at c (PC c + 1) = 7 ->
  1 <= reg c 7 ->
  PUSH c
  = (set_byte (reg c 7 - 1) (reg c 7 - 1) (set_reg 7 (reg c 7 - 1) c),
     Ok tt).
Proof.
  intros Hwf Hpc Hr Hsp.
  pose proof (reg_bounds c 7 Hwf) as Hsp'.
  set (sp := reg c 7) in *.
  assert (Hwf1 : cpu_wf (set_reg 7 (sp - 1) c))
    by (apply cpu_wf_set_reg; [assumption | lia]).
  unfold PUSH.
  rewrite (bind_ok _ _ _ _ _ (get_SP_ok c Hwf)). fold sp.
  erewrite bind_ok by (apply set_SP_ok; [assumption | lia]).
  rewrite bind_get.
  rewrite (bind_ok _ _ _ _ _ (ram_read_ok _ (PC c + 1) Hwf1 Hpc)).
  change (byte_at (set_reg 7 (sp - 1) c) (PC c + 1))
    with (byte_at c (PC c + 1)). rewrite Hr.
  erewrite bind_ok by (apply reg_read_ok; [assumption | lia]).
  rewrite (bind_ok _ _ _ _ _ (get_SP_ok _ Hwf1)).
  rewrite reg_set_reg_eq by (assumption || lia).
  apply ram_write_ok; [assumption | lia | lia].
Qed.

Lemma PUSH_of_SP_witness :
  PUSH (loaded [0x45; 7])
  = (set_byte (reg (loaded [0x45; 7]) 7 - 1) (reg (loaded [0x45; 7]) 7 - 1)
       (set_reg 7 (reg (loaded [0x45; 7]) 7 - 1) (loaded [0x45; 7])),
     Ok tt).
Proof.
  apply PUSH_of_SP; [apply loaded_wf | by_evaluation ..].
Defined.

(** X17. [PUSH] has no rollback: when its operand is not a register number
    it raises the out-of-bounds error with the stack pointer already
    decremented. *)
Theorem PUSH_bad_register_moves_SP (c : CPU) :
  cpu_wf c -> 0 <= PC c + 1 <= 255 -> 7 < byte_at c (PC c + 1) ->
  1 <= reg c 7 ->
  PUSH c = (set_reg 7 (reg c 7 - 1) c, Raise out_of_bounds) /\
  reg (set_reg 7 (reg c 7 - 1) c) 7 = reg c 7 - 1.
Proof.
  intros Hwf Hpc Hr Hsp.
  pose proof (reg_bounds c 7 Hwf) as Hsp'.
  set (sp := reg c 7) in *.
  assert (Hwf1 : cpu_wf (set_reg 7 (sp - 1) c))
    by (apply cpu_wf_set_reg; [assumption | lia]).
  split; [| apply reg_set_reg_eq; [assumption | lia]].
  unfold PUSH.
  rewrite (bind_ok _ _ _ _ _ (get_SP_ok c Hwf)). fold sp.
  erewrite bind_ok by (apply set_SP_ok; [assumption | lia]).
  rewrite bind_get.
  rewrite (bind_ok _ _ _ _ _ (ram_read_ok _ (PC c + 1) Hwf1 Hpc)).
  change (byte_at (set_reg 7 (sp - 1) c) (PC c + 1))
    with (byte_at c (PC c + 1)).
  now rewrite (bind_raise _ _ _ _ _
                 (reg_read_out_of_bounds _ (byte_at c (PC c + 1)) Hwf1
                    ltac:(lia))).
Qed.

Lemma PUSH_bad_register_moves_SP_witness :
  PUSH (loaded [0x45; 8])
  = (set_reg 7 (reg (loaded [0x45; 8]) 7 - 1) (loaded [0x45; 8]),
     Raise out_of_bounds) /\
  reg (set_reg 7 (reg (loaded [0x45; 8]) 7 - 1) (loaded [0x45; 8])) 7
  = reg (loaded [0x45; 8]) 7 - 1.
Proof.
  apply PUSH_bad_register_moves_SP; [apply loaded_wf | by_evaluation ..].
Defined.

(** X18. [MUL] and [CMP] called with a register number outside 0..7 raise
    the out-of-bounds error before they change anything: no register and
    no flag is touched. *)
Theorem ALU_bad_register (c : CPU) (reg_a reg_b : Z) :
  cpu_wf c ->
  reg_a < 0 \/ 7 < reg_a \/ reg_b < 0 \/ 7 < reg_b ->
  MUL reg_a reg_b c = (c, Raise out_of_bounds) /\
  CMP reg_a reg_b c = (c, Raise out_of_bounds).
Proof.
  intros Hwf Hbad. unfold MUL, CMP.
  destruct (Z.lt_ge_cases reg_a 0) as [Ha | Ha];
    [| destruct (Z.lt_ge_cases 7 reg_a) as [Ha' | Ha']].
  - now rewrite !(bind_raise _ _ _ _ _
                    (reg_read_out_of_bounds c reg_a Hwf ltac:(lia))).
  - now rewrite !(bind_raise _ _ _ _ _
                    (reg_read_out_of_bounds c reg_a Hwf ltac:(lia))).
  - rewrite !(bind_ok _ _ _ _ _ (reg_read_ok c reg_a Hwf ltac:(lia))).
    now rewrite !(bind_raise _ _ _ _ _
                    (reg_read_out_of_bounds c reg_b Hwf ltac:(lia))).
Qed.

Lemma ALU_bad_register_witness :
  MUL 0 8 CPU_init = (CPU_init, Raise out_of_bounds) /\
  CMP 0 8 CPU_init = (CPU_init, Raise out_of_bounds).
Proof. apply ALU_bad_register; [apply cpu_wf_init | lia]. Defined.

(** ** More on the loop of [run] *)

(** X19. The fallback for an unknown opcode does not stop the automatic
    advance: the iteration that prints the diagnostic and halts still steps
    PC over the unknown instruction, by one plus the operand count in its
    top two bits, unless its bit 4 is set, in which case PC stays on it. *)
Theorem unknown_opcode_still_advances (c : CPU) :
  cpu_wf c -> 0 <= PC c <= 255 ->
  dispatch_table !! byte_at c (PC c) = None ->
  (use_alu (byte_at c (PC c)) <> 0 -> PC c + 2 <= 255) ->
  exists c',
    cycle c = (c', Ok tt) /\
    running c' = false /\
    PC c' = (if sets_pc (byte_at c (PC c)) =? 0
             then PC c + (1 + num_ops (byte_at c (PC c)))
             else PC c).
Proof.
  intros Hwf Hpc Hnone Halu.
  set (ir := byte_at c (PC c)) in *.
  pose proof (execute_unknown (set_IR ir c) (cpu_wf_set_IR c ir Hwf)
                Hpc Hnone Halu) as Hexec.
  cbn [IR PC FL stdout set_IR] in Hexec.
  unfold cycle. rewrite bind_get.
  rewrite (bind_ok _ _ _ _ _ (ram_read_ok c (PC c) Hwf Hpc)).
  fold ir. rewrite bind_modify.
  rewrite (bind_ok _ _ _ _ _ Hexec).
  unfold advance. rewrite bind_get. cbn [IR set_FL set_stdout set_IR].
  destruct (sets_pc ir =? 0); eexists; (split; [reflexivity |]);
    (split; [apply HLT_not_running | reflexivity]).
Qed.

Lemma unknown_opcode_still_advances_witness :
  exists c',
    cycle (loaded [0xC3]) = (c', Ok tt) /\
    running c' = false /\ PC c' = 4.
Proof.
  destruct (unknown_opcode_still_advances (loaded [0xC3]))
    as (c' & H1 & H2 & H3).
  - apply loaded_wf.
  - by_evaluation.
  - reflexivity.
  - intros H. exfalso. apply H. reflexivity.
  - exists c'. repeat split; assumption.
Defined.

(** X20. [run] on a well-formed machine whose PC is not an address fails at
    once: the fetch raises the out-of-bounds error, RUNNING has been set
    and nothing else has changed.  This is how a program ends whose last
    instruction steps PC past address 255 without halting. *)
Theorem run_fetch_outside_memory (c : CPU) (fuel : nat) :
  cpu_wf c -> PC c < 0 \/ 255 < PC c ->
  run (S fuel) c
  = Some (set_FL (Z.lor (FL c) FLAG_RUNNING) c, Raise out_of_bounds).
Proof.
  intros Hwf Hpc. unfold run.
  set (c0 := set_FL (Z.lor (FL c) FLAG_RUNNING) c).
  assert (Hrun : running c0 = true).
  { unfold running. fold (flag_set (FL c0) FLAG_RUNNING).
    rewrite flag_set_RUNNING. unfold c0. cbn [FL set_FL].
    rewrite FLAG_RUNNING_bit, testbit_set_flag by lia. reflexivity. }
  apply run_loop_raise; [exact Hrun |].
  unfold cycle. rewrite bind_get.
  now rewrite (bind_raise _ _ _ _ _
                 (ram_read_out_of_bounds c0 (PC c0)
                    (cpu_wf_set_FL _ _ Hwf) Hpc)).
Qed.

Lemma run_fetch_outside_memory_witness :
  run 1 (set_PC 256 CPU_init)
  = Some (set_FL (Z.lor (FL (set_PC 256 CPU_init)) FLAG_RUNNING)
                 (set_PC 256 CPU_init), Raise out_of_bounds).
Proof.
  apply run_fetch_outside_memory.
  - apply cpu_wf_set_PC, cpu_wf_init.
  - right. simpl. lia.
Defined.

Lemma decode_fields_table :
  forallb
    (fun ir =>
       (ir =? 64 * num_ops ir + 32 * use_alu ir + 16 * sets_pc ir
              + insr_id ir)
       && (0 <=? num_ops ir) && (num_ops ir <=? 3)
       && (0 <=? use_alu ir) && (use_alu ir <=? 1)
       && (0 <=? sets_pc ir) && (sets_pc ir <=? 1)
       && (0 <=? insr_id ir) && (insr_id ir <=? 15))
    (seqZ 0 256) = true.
Proof. vm_compute. reflexivity. Qed.

(** X21. The four fields that [run] decodes split the instruction byte
    without overlap and without loss: the byte is rebuilt from them, and
    each field is within the range of its bits. *)
Theorem decode_fields_partition (ir : Z) :
  0 <= ir <= 255 ->
  ir = 64 * num_ops ir + 32 * use_alu ir + 16 * sets_pc ir + insr_id ir /\
  0 <= num_ops ir <= 3 /\ 0 <= use_alu ir <= 1 /\
  0 <= sets_pc ir <= 1 /\ 0 <= insr_id ir <= 15.
Proof.
  intros Hir. pose proof decode_fields_table as H.
  rewrite forallb_forall in H.
  specialize (H ir ltac:(apply list_elem_of_In, elem_of_seqZ; lia)).
  repeat (apply andb_prop in H as [H ?]). lia.
Qed.

Lemma decode_fields_partition_witness :
  0xA7 = 64 * num_ops 0xA7 + 32 * use_alu 0xA7 + 16 * sets_pc 0xA7
         + insr_id 0xA7 /\
  0 <= num_ops 0xA7 <= 3 /\ 0 <= use_alu 0xA7 <= 1 /\
  0 <= sets_pc 0xA7 <= 1 /\ 0 <= insr_id 0xA7 <= 15.
Proof. apply decode_fields_partition. lia. Defined.

(** ** How [run] ends *)

Section RaiseFacts.
Context {S X : Type} (f : S -> X).

Lemma kept_of_stable {A} (m : M S A) : stable f m -> kept_on_raise f m.
Proof. intros H s s' e Hm. specialize (H s). now rewrite Hm in H. Qed.

Lemma kept_of_never {A} (m : M S A) : never_raises m -> kept_on_raise f m.
Proof.
  intros H s s' e Hm. destruct (H s) as (s1 & a & Hs). congruence.
Qed.

Lemma kept_bind_stable {A B} (m : M S A) (k : A -> M S B) :
  stable f m -> (forall a, kept_on_raise f (k a)) ->
  kept_on_raise f (bind m k).
Proof.
  intros Hm Hk s s' e. unfold bind. specialize (Hm s).
  destruct (m s) as [s1 [a | e1]]; simpl in Hm.
  - intros H. rewrite <- Hm. now apply (Hk a s1 s' e).
  - now intros [= <- _].
Qed.

Lemma kept_bind_never {A B} (m : M S A) (k : A -> M S B) :
  kept_on_raise f m -> (forall a, never_raises (k a)) ->
  kept_on_raise f (bind m k).
Proof.
  intros Hm Hk s s' e. unfold bind.
  destruct (m s) as [s1 [a | e1]] eqn:E.
  - intros H. destruct (Hk a s1) as (s2 & b & Hs). congruence.
  - intros [= <- _]. now apply (Hm s s1 e1).
Qed.

(** The [try]/[except KeyError] of [run] and [alu], whose handler cannot
    fail. *)
Lemma kept_try_except_KeyError {A} (m h : M S A) :
  kept_on_raise f m -> never_raises h ->
  kept_on_raise f
    (try_except m (fun e => match e with
                            | KeyError _ => h
                            | _ => raise e
                            end)).
Proof.
  intros Hm Hh s s' e. unfold try_except.
  destruct (m s) as [s1 [a | e1]] eqn:E; [discriminate |].
  destruct e1; try (intros [= <- _]; now apply (Hm s s1 _ E)).
  intros H. destruct (Hh s1) as (s2 & b & Hs). congruence.
Qed.
End RaiseFacts.

Section RunEnds.
(** [running] tests bit 7 of the flags. *)
Lemma running_is_bit (c : CPU) : running c = on_bit c.
Proof. unfold running. apply (flag_set_RUNNING (FL c)). Qed.

Lemma never_raises_unknown (msg : Z -> Z -> string) :
  never_raises (let! c := get in print (msg (IR c) (PC c)) ;; HLT).
Proof. intros c. now eexists _, _. Qed.

Lemma never_raises_advance : never_raises advance.
Proof.
  intros c. unfold advance. rewrite bind_get.
  destruct (sets_pc (IR c) =? 0); now eexists _, _.
Qed.

Lemma stable_on_bit_CMP a b : stable on_bit (CMP a b).
Proof.
  unfold CMP.
  apply stable_bind; [auto with py | intros va].
  apply stable_bind; [auto with py | intros vb].
  repeat (apply stable_bind; [| intros _]);
    apply stable_if; apply stable_modify; intros c; unfold on_bit;
    cbn [FL set_FL];
    rewrite ?FLAG_EQUAL_bit, ?FLAG_LESS_bit, ?FLAG_GREATER_bit;
    first [ rewrite testbit_set_flag by lia
          | rewrite testbit_clear_flag by lia ];
    reflexivity.
Qed.

Lemma dispatch_table_kept k h :
  dispatch_table !! k = Some h -> handler_forall (kept_on_raise on_bit) h.
Proof.
  revert k h.
  apply (dispatch_table_forall
           (fun _ h => handler_forall (kept_on_raise on_bit) h)); simpl;
    try match goal with
        | |- forall reg_a reg_b : Z, _ => intros reg_a reg_b
        end;
    first [ apply kept_of_stable, stable_on_bit_CMP
          | apply kept_of_never; intros c; now eexists _, _
          | apply kept_of_stable; by_combinators ].
Qed.

Lemma kept_execute : kept_on_raise on_bit execute.
Proof.
  unfold execute. apply kept_bind_stable; [apply stable_get | intros c].
  destruct (negb (use_alu (IR c) =? 0)).
  - unfold ram_read.
    apply kept_bind_stable; [auto with py | intros reg_a].
    apply kept_bind_stable; [auto with py | intros reg_b].
    unfold alu. apply kept_try_except_KeyError;
      [| apply never_raises_unknown].
    apply kept_bind_stable; [apply stable_get | intros c0].
    apply (dispatch_then (kept_on_raise on_bit));
      [apply kept_of_stable, stable_raise | intros h Hh].
    apply handler_forall_call2;
      [intros; apply kept_of_stable, stable_raise |].
    eapply dispatch_table_kept, Hh.
  - apply kept_try_except_KeyError; [| apply never_raises_unknown].
    apply (dispatch_then (kept_on_raise on_bit));
      [apply kept_of_stable, stable_raise | intros h Hh].
    apply handler_forall_call0;
      [intros; apply kept_of_stable, stable_raise |].
    eapply dispatch_table_kept, Hh.
Qed.

Lemma kept_cycle : kept_on_raise on_bit cycle.
Proof.
  unfold cycle, ram_read.
  apply kept_bind_stable; [apply stable_get | intros c].
  apply kept_bind_stable; [auto with py | intros ir].
  apply kept_bind_stable; [auto with py | intros _].
  apply kept_bind_never; [apply kept_execute | intros _].
  apply never_raises_advance.
Qed.

Lemma run_loop_ends (fuel : nat) : forall (c c' : CPU) (r : result unit),
  run_loop fuel c = Some (c', r) ->
  match r with
  | Ok _ => running c' = false
  | Raise _ => running c' = true
  end.
Proof.
  induction fuel as [| fuel IH]; intros c c' r; simpl;
    destruct (running c) eqn:Hrun; try discriminate;
    try (intros [= <- <-]; assumption).
  destruct (cycle c) as [c1 [u | e]] eqn:Hcycle; [apply IH |].
  intros [= <- <-]. rewrite running_is_bit in *.
  now rewrite (kept_cycle c c1 e Hcycle).
Qed.
End RunEnds.

(** X22. However [run] ends, the RUNNING flag tells how: when [run] returns
    the flag is clear, and when [run] raises the flag is still set, because
    nothing that can fail comes after the flag is cleared. *)
Theorem run_ends_halted_or_running (fuel : nat) (c c' : CPU)
        (r : result unit) :
  run fuel c = Some (c', r) ->
  match r with
  | Ok _ => running c' = false
  | Raise _ => running c' = true
  end.
Proof. unfold run. apply run_loop_ends. Qed.

Lemma run_ends_halted_or_running_witness :
  (exists c', run 5 (loaded prog_mul) = Some (c', Ok tt) /\
              running c' = false) /\
  (exists c' e, run 5 (loaded [0x82; 8; 1]) = Some (c', Raise e) /\
                running c' = true).
Proof.
  split.
  - eexists. split; [vm_compute; reflexivity |].
    apply (run_ends_halted_or_running 5 (loaded prog_mul) _ (Ok tt)).
    vm_compute. reflexivity.
  - eexists _, _. split; [vm_compute; reflexivity |].
    apply (run_ends_halted_or_running 5 (loaded [0x82; 8; 1]) _
             (Raise out_of_bounds)).
    vm_compute. reflexivity.
Defined.

Section OutcomeFacts.
Context {S : Type} (P : S -> Prop).

Lemma raises_only_weaken {A} (E E' : exn -> Prop) (m : M S A) :
  (forall e, E e -> E' e) -> raises_only P E m -> raises_only P E' m.
Proof.
  intros HE Hm s Hs. destruct (Hm s Hs) as [HP Hr]. split; [exact HP |].
  intros e He. now apply HE, Hr.
Qed.

Lemma raises_only_ret {A} E (a : A) : raises_only P E (ret a).
Proof. intros s Hs. split; [exact Hs | discriminate]. Qed.

Lemma raises_only_get E : raises_only P E get.
Proof. intros s Hs. split; [exact Hs | discriminate]. Qed.

Lemma raises_only_raise {A} (E : exn -> Prop) e :
  E e -> raises_only P E (@raise S A e).
Proof. intros He s Hs. split; [exact Hs |]. now intros e' [= <-]. Qed.

Lemma raises_only_modify E (g : S -> S) :
  (forall s, P s -> P (g s)) -> raises_only P E (modify g).
Proof. intros Hg s Hs. split; [now apply Hg | discriminate]. Qed.

Lemma raises_only_bind {A B} E (m : M S A) (k : A -> M S B) :
  raises_only P E m -> (forall a, raises_only P E (k a)) ->
  raises_only P E (bind m k).
Proof.
  intros Hm Hk s Hs. unfold bind. destruct (Hm s Hs) as [HP Hr].
  destruct (m s) as [s1 [a | e]]; simpl in *.
  - now apply Hk.
  - split; [exact HP |]. intros e' [= <-]. now apply Hr.
Qed.

Lemma raises_only_if {A} E (b : bool) (m1 m2 : M S A) :
  raises_only P E m1 -> raises_only P E m2 ->
  raises_only P E (if b then m1 else m2).
Proof. now destruct b. Qed.

Lemma raises_only_try_except {A} (E E' : exn -> Prop) (m : M S A)
      (h : exn -> M S A) :
  raises_only P E' m -> (forall e, E' e -> raises_only P E (h e)) ->
  raises_only P E (try_except m h).
Proof.
  intros Hm Hh s Hs. unfold try_except. destruct (Hm s Hs) as [HP Hr].
  destruct (m s) as [s1 [a | e]]; simpl in *.
  - split; [exact HP | discriminate].
  - apply Hh; [now apply Hr | exact HP].
Qed.
End OutcomeFacts.

Section MachineOutcomes.
Lemma raises_only_read_byte sz a :
  raises_only (mem_ok sz) (eq out_of_bounds) (read_byte a).
Proof.
  intros m Hm. split; [now apply preserves_read_byte |].
  destruct Hm as (Hs & Hwf & _).
  destruct (Z.lt_ge_cases a 0) as [Ha | Ha];
    [| destruct (Z.lt_ge_cases a (size m)) as [Ha' | Ha']].
  - rewrite read_byte_out_of_bounds by lia. now intros e [= <-].
  - rewrite read_byte_ok by (assumption || lia). discriminate.
  - rewrite read_byte_out_of_bounds by lia. now intros e [= <-].
Qed.

Lemma raises_only_write_byte_int sz a v :
  raises_only (mem_ok sz) machine_error (write_byte a (PyInt v)).
Proof.
  intros m Hm. split; [now apply preserves_write_byte |].
  destruct Hm as (Hs & Hwf & _). unfold machine_error.
  destruct (Z.lt_ge_cases a 0) as [Ha | Ha];
    [| destruct (Z.lt_ge_cases a (size m)) as [Ha' | Ha']].
  - rewrite write_byte_out_of_bounds by lia. intros e [= <-]. now left.
  - destruct (Z.lt_ge_cases v 0) as [Hv | Hv];
      [| destruct (Z.lt_ge_cases 255 v) as [Hv' | Hv']].
    + rewrite (write_byte_range_error _ _ _ v) by (reflexivity || lia).
      intros e [= <-]. now right.
    + rewrite (write_byte_range_error _ _ _ v) by (reflexivity || lia).
      intros e [= <-]. now right.
    + rewrite (write_byte_stores _ _ _ v)
        by (assumption || reflexivity || lia).
      discriminate.
  - rewrite write_byte_out_of_bounds by lia. intros e [= <-]. now left.
Qed.

Lemma raises_only_on_ram {A} E (m : M Memory A) :
  raises_only (mem_ok MAX_MEM) E m -> raises_only cpu_wf E (on_ram m).
Proof.
  intros Hm c (Hram & Hregs). unfold on_ram.
  destruct (Hm (ram c) Hram) as [HP Hr].
  destruct (m (ram c)) as [r x]. simpl in *. split; [now split | exact Hr].
Qed.

Lemma raises_only_on_regs {A} E (m : M Memory A) :
  raises_only (mem_ok 8) E m -> raises_only cpu_wf E (on_regs m).
Proof.
  intros Hm c (Hram & Hregs). unfold on_regs.
  destruct (Hm (gp_registers c) Hregs) as [HP Hr].
  destruct (m (gp_registers c)) as [r x]. simpl in *.
  split; [now split | exact Hr].
Qed.

Lemma raises_only_ram_read a :
  raises_only cpu_wf machine_error (on_ram (read_byte a)).
Proof.
  apply raises_only_on_ram.
  apply (raises_only_weaken _ (eq out_of_bounds));
    [intros e <-; now left | apply raises_only_read_byte].
Qed.

Lemma raises_only_reg_read r :
  raises_only cpu_wf machine_error (on_regs (read_byte r)).
Proof.
  apply raises_only_on_regs.
  apply (raises_only_weaken _ (eq out_of_bounds));
    [intros e <-; now left | apply raises_only_read_byte].
Qed.

Lemma raises_only_reg_write r v :
  raises_only cpu_wf machine_error (on_regs (write_byte r (PyInt v))).
Proof. apply raises_only_on_regs, raises_only_write_byte_int. Qed.

Lemma raises_only_ram_write a v :
  raises_only cpu_wf machine_error (on_ram (write_byte a (PyInt v))).
Proof. apply raises_only_on_ram, raises_only_write_byte_int. Qed.

Lemma raises_only_modify_fields E (g : CPU -> CPU) :
  (forall c, ram (g c) = ram c) ->
  (forall c, gp_registers (g c) = gp_registers c) ->
  raises_only cpu_wf E (modify g).
Proof.
  intros H1 H2. apply raises_only_modify. intros c Hc.
  unfold cpu_wf. now rewrite H1, H2.
Qed.
End MachineOutcomes.

#[export] Hint Resolve raises_only_ret raises_only_get raises_only_bind
  raises_only_if raises_only_ram_read raises_only_reg_read
  raises_only_reg_write raises_only_ram_write : py.
#[export] Hint Extern 1 (raises_only cpu_wf _ (modify _)) =>
  apply raises_only_modify_fields; reflexivity : py.

Section HandlerOutcomes.
Lemma dispatch_table_raises_only k h :
  dispatch_table !! k = Some h ->
  handler_forall (raises_only cpu_wf machine_error) h.
Proof.
  revert k h.
  apply (dispatch_table_forall
           (fun _ h => handler_forall (raises_only cpu_wf machine_error) h));
    simpl;
    try match goal with
        | |- forall reg_a reg_b : Z, _ => intros reg_a reg_b
        end;
    by_combinators.
Qed.

Lemma raises_only_unknown (msg : Z -> Z -> string) :
  raises_only cpu_wf machine_error
    (let! c := get in print (msg (IR c) (PC c)) ;; HLT).
Proof. by_combinators. Qed.

(** What the [try] body of [run] and [alu] can raise: a machine error, or
    the [KeyError] of the table. *)
Lemma raises_only_dispatched (call : handler -> M CPU unit) k :
  (forall h, dispatch_table !! k = Some h ->
             raises_only cpu_wf machine_error (call h)) ->
  raises_only cpu_wf (fun e => machine_error e \/ exists key, e = KeyError key)
    (let! h := dispatch k in call h).
Proof.
  intros Hcall.
  apply (dispatch_then
           (raises_only cpu_wf
              (fun e => machine_error e \/ exists key, e = KeyError key))).
  - apply raises_only_raise. right. now exists k.
  - intros h Hh. apply (raises_only_weaken _ machine_error); [now left |].
    now apply Hcall.
Qed.

Lemma raises_only_fallback (msg : Z -> Z -> string) (m : M CPU unit) :
  raises_only cpu_wf (fun e => machine_error e \/ exists key, e = KeyError key)
    m ->
  raises_only cpu_wf machine_error
    (try_except m
       (fun e => match e with
                 | KeyError _ =>
                     let! c := get in print (msg (IR c) (PC c)) ;; HLT
                 | _ => raise e
                 end)).
Proof.
  intros Hm. eapply raises_only_try_except; [exact Hm |].
  intros e [He | [key ->]]; [| apply raises_only_unknown].
  destruct He as [-> | ->]; apply raises_only_raise; [now left | now right].
Qed.

Lemma ram_read_cases (c : CPU) (a : Z) :
  cpu_wf c ->
  ram_read a c = (c, Ok (byte_at c a)) \/
  ram_read a c = (c, Raise out_of_bounds).
Proof.
  intros Hwf.
  destruct (Z.lt_ge_cases a 0) as [Ha | Ha];
    [| destruct (Z.lt_ge_cases 255 a) as [Ha' | Ha']].
  - right. apply ram_read_out_of_bounds; [assumption | lia].
  - right. apply ram_read_out_of_bounds; [assumption | lia].
  - left. apply ram_read_ok; [assumption | lia].
Qed.

Lemma raise_outcome (c : CPU) (e : exn) :
  cpu_wf c -> machine_error e ->
  cpu_wf (fst (c, @Raise unit e)) /\
  forall e', snd (c, @Raise unit e) = Raise e' -> machine_error e'.
Proof. intros Hwf He. split; [exact Hwf |]. now intros e' [= <-]. Qed.

(** The outcome of [execute] from one state. *)
Lemma execute_outcome (c : CPU) :
  cpu_wf c ->
  cpu_wf (fst (execute c)) /\
  forall e, snd (execute c) = Raise e -> machine_error e.
Proof.
  intros Hwf. unfold execute. rewrite bind_get.
  destruct (Z.eqb_spec (use_alu (IR c)) 0) as [Halu | Halu]; cbn [negb].
  - apply (raises_only_fallback unknown_msg); [| exact Hwf].
    apply raises_only_dispatched. intros h Hh.
    pose proof (dispatch_table_arity _ _ Hh) as Harity.
    pose proof (dispatch_table_raises_only _ _ Hh) as Hok.
    destruct h as [f | f]; [exact Hok | congruence].
  - destruct (ram_read_cases c (PC c + 1) Hwf) as [H1 | H1];
      [rewrite (bind_ok _ _ _ _ _ H1)
      | rewrite (bind_raise _ _ _ _ _ H1); apply raise_outcome;
        [exact Hwf | now left]].
    destruct (ram_read_cases c (PC c + 2) Hwf) as [H2 | H2];
      [rewrite (bind_ok _ _ _ _ _ H2)
      | rewrite (bind_raise _ _ _ _ _ H2); apply raise_outcome;
        [exact Hwf | now left]].
    unfold alu, try_except at 1. rewrite bind_get.
    apply (raises_only_fallback unknown_alu_msg
             (let! h := dispatch (IR c)
              in call2 h (byte_at c (PC c + 1)) (byte_at c (PC c + 2))));
      [| exact Hwf].
    apply raises_only_dispatched. intros h Hh.
    pose proof (dispatch_table_arity _ _ Hh) as Harity.
    pose proof (dispatch_table_raises_only _ _ Hh) as Hok.
    destruct h as [f | f]; [congruence | apply Hok].
Qed.

Lemma cycle_outcome (c : CPU) :
  cpu_wf c ->
  cpu_wf (fst (cycle c)) /\
  forall e, snd (cycle c) = Raise e -> machine_error e.
Proof.
  intros Hwf. unfold cycle. rewrite bind_get.
  destruct (ram_read_cases c (PC c) Hwf) as [H1 | H1];
    [rewrite (bind_ok _ _ _ _ _ H1)
    | rewrite (bind_raise _ _ _ _ _ H1); apply raise_outcome;
      [exact Hwf | now left]].
  rewrite bind_modify. unfold bind.
  destruct (execute_outcome (set_IR (byte_at c (PC c)) c)
              (cpu_wf_set_IR c _ Hwf)) as [Hwf1 Hr].
  destruct (execute (set_IR (byte_at c (PC c)) c)) as [c1 [[] | e]];
    simpl in *.
  - split; [now apply preserves_advance |].
    destruct (never_raises_advance c1) as (c2 & u & ->). discriminate.
  - split; [exact Hwf1 |]. intros e' [= <-]. now apply Hr.
Qed.

Lemma run_loop_outcome (fuel : nat) : forall (c c' : CPU) (r : result unit),
  cpu_wf c -> run_loop fuel c = Some (c', r) ->
  cpu_wf c' /\ forall e, r = Raise e -> machine_error e.
Proof.
  induction fuel as [| fuel IH]; intros c c' r Hwf; simpl;
    destruct (running c); try discriminate;
    try (intros [= <- <-]; split; [assumption | discriminate]).
  destruct (cycle_outcome c Hwf) as [Hwf1 Hr].
  destruct (cycle c) as [c1 [u | e]]; simpl in *.
  - now apply IH.
  - intros [= <- <-]. split; [exact Hwf1 |]. intros e' [= <-]. now apply Hr.
Qed.
End HandlerOutcomes.

(** X23. [run] on a well-formed machine can fail in two ways only, the
    out-of-bounds [ReferenceError] and the not-a-byte [TypeError]: the
    [KeyError] of the table is always caught, no handler is ever called
    with the wrong number of arguments, and no list index is ever out of
    range.  However [run] ends, the machine is still well formed: 256
    bytes of memory and 8 registers, each holding a value in [0, 255]. *)
Theorem run_outcome (fuel : nat) (c c' : CPU) (r : result unit) :
  cpu_wf c -> run fuel c = Some (c', r) ->
  cpu_wf c' /\
  (forall e, r = Raise e -> e = out_of_bounds \/ e = not_a_byte) /\
  (forall a, 0 <= byte_at c' a <= 255) /\
  (forall n, 0 <= reg c' n <= 255).
Proof.
  intros Hwf Hrun. unfold run in Hrun.
  apply run_loop_outcome in Hrun as [Hwf' Hr];
    [| now apply cpu_wf_set_FL].
  split; [exact Hwf' |]. split; [exact Hr |]. split.
  - intros a. now apply byte_at_bounds.
  - intros n. now apply reg_bounds.
Qed.

Lemma run_outcome_witness :
  exists c' e,
    run 3 (loaded [0x82; 7; 0; 0x45; 0]) = Some (c', Raise e) /\
    cpu_wf c' /\ (e = out_of_bounds \/ e = not_a_byte).
Proof.
  eexists _, _. split; [vm_compute; reflexivity |].
  destruct (run_outcome 3 (loaded [0x82; 7; 0; 0x45; 0]) _
              (Raise not_a_byte) (loaded_wf _) ltac:(vm_compute; reflexivity))
    as (Hwf & Hr & _).
  split; [exact Hwf | now apply Hr].
Defined.

(** ** The text of a line *)

Section BitsFacts.
Lemma before_hash_no_hash (s : list ascii) :
  Forall (fun ch => Z.of_nat (nat_of_ascii ch) <> 35) s -> before_hash s = s.
Proof.
  induction 1 as [| ch s Hch _ IH]; simpl; [reflexivity |].
  destruct (Z.eqb_spec (Z.of_nat (nat_of_ascii ch)) 35); [lia |].
  now rewrite IH.
Qed.

Lemma lstrip_spaces_app (ws l : list ascii) :
  Forall (fun ch => is_space ch = true) ws -> lstrip (ws ++ l) = lstrip l.
Proof. induction 1 as [| ch ws Hch _ IH]; simpl; [| rewrite Hch]; trivial. Qed.

Lemma lstrip_bits_cons (b : bool) (l : list ascii) :
  lstrip (bit_char b :: l) = bit_char b :: l.
Proof. now destruct b. Qed.

Lemma strip_bits_spaces (bits : list bool) (ws : list ascii) :
  Forall (fun ch => is_space ch = true) ws ->
  strip (map bit_char bits ++ ws) = map bit_char bits.
Proof.
  intros Hws. unfold strip. destruct bits as [| b bits].
  - simpl. rewrite <- (app_nil_r ws), lstrip_spaces_app by assumption.
    reflexivity.
  - cbn [map app]. rewrite lstrip_bits_cons.
    change (bit_char b :: map bit_char bits ++ ws)
      with (map bit_char (b :: bits) ++ ws).
    rewrite rev_app_distr.
    rewrite lstrip_spaces_app by now apply Forall_rev.
    rewrite <- map_rev.
    destruct (rev (b :: bits)) as [| b' bits'] eqn:E.
    + apply (f_equal (@length bool)) in E. rewrite length_rev in E.
      discriminate.
    + cbn [map]. rewrite lstrip_bits_cons.
      change (bit_char b' :: map bit_char bits')
        with (map bit_char (b' :: bits')).
      now rewrite <- E, map_rev, rev_involutive.
Qed.

Lemma skip_0b_bits (bits : list bool) :
  skip_0b (map bit_char bits) = map bit_char bits.
Proof. destruct bits as [| [] [| [] bits]]; reflexivity. Qed.

Lemma parse_digits_base_bits (bits : list bool) : forall acc after_digit,
  parse_digits_base 2 (map bit_char bits) acc after_digit
  = match bits with
    | [] => if after_digit then Some acc else None
    | _ => Some (fold_left (fun acc b => 2 * acc + Z.b2z b) bits acc)
    end.
Proof.
  induction bits as [| b bits IH]; intros acc after_digit; [reflexivity |].
  cbn [map parse_digits_base].
  replace (digit_value (bit_char b)) with (Some (Z.b2z b))
    by now destruct b.
  replace (Z.b2z b <? 2) with true by now destruct b.
  rewrite IH. now destruct bits.
Qed.

Lemma parse_int_base2_bits (bits : list bool) (ws : list ascii) :
  bits <> [] -> Forall (fun ch => is_space ch = true) ws ->
  parse_int_base2 (map bit_char bits ++ ws) = Some (bits_value bits).
Proof.
  intros Hne Hws. unfold parse_int_base2.
  rewrite strip_bits_spaces by assumption.
  destruct bits as [| b bits]; [congruence |].
  cbn [map]. 
  replace (Z.of_nat (nat_of_ascii (bit_char b)) =? 45) with false
    by now destruct b.
  replace (Z.of_nat (nat_of_ascii (bit_char b)) =? 43) with false
    by now destruct b.
  change (bit_char b :: map bit_char bits) with (map bit_char (b :: bits)).
  now rewrite skip_0b_bits, parse_digits_base_bits.
Qed.

Lemma is_space_not_hash (ws : list ascii) :
  Forall (fun ch => is_space ch = true) ws ->
  Forall (fun ch => Z.of_nat (nat_of_ascii ch) <> 35) ws.
Proof.
  intros H. eapply Forall_impl; [exact H |].
  intros ch Hch Heq. unfold is_space in Hch.
  rewrite Heq in Hch. discriminate.
Qed.

Lemma bits_not_hash (bits : list bool) :
  Forall (fun ch => Z.of_nat (nat_of_ascii ch) <> 35) (map bit_char bits).
Proof. apply Forall_map, Forall_true. now intros []. Qed.
End BitsFacts.

(** X24. A line made of binary digits, most significant first, then any
    white space (the end of line included) and possibly a ['#'] and a
    comment, is read by [load] as the number the digits denote. *)
Theorem parse_line_binary_digits (bits : list bool) (ws comment : list ascii) :
  bits <> [] -> Forall (fun ch => is_space ch = true) ws ->
  parse_line (string_of_list_ascii (map bit_char bits ++ ws))
  = Some (bits_value bits) /\
  parse_line
    (string_of_list_ascii (map bit_char bits ++ ws ++ "#"%char :: comment))
  = Some (bits_value bits).
Proof.
  intros Hne Hws. unfold parse_line.
  rewrite !list_ascii_of_string_of_list_ascii.
  rewrite app_assoc, before_hash_app_hash.
  rewrite before_hash_no_hash
    by (apply Forall_app; split;
        [apply bits_not_hash | now apply is_space_not_hash]).
  split; now apply parse_int_base2_bits.
Qed.

Lemma parse_line_binary_digits_witness :
  parse_line "10000010 # LDI R0,8" = Some 0x82.
Proof.
  destruct (parse_line_binary_digits
              [true; false; false; false; false; false; true; false]
              [" "%char] (list_ascii_of_string " LDI R0,8")) as [_ H].
  - discriminate.
  - repeat constructor.
  - exact H.
Defined.

(** ** [trace] *)

Section TraceFacts.
Implicit Types (t : Tracer) (c : CPU).

Lemma on_machine_ok {A} (m : M CPU A) t c' (a : A) :
  m (machine t) = (c', Ok a) ->
  on_machine m t = (mkTracer c' (trace_history t), Ok a).
Proof. intros H. unfold on_machine. now rewrite H. Qed.

Lemma on_machine_raise {A} (m : M CPU A) t c' e :
  m (machine t) = (c', Raise e) ->
  on_machine m t = (mkTracer c' (trace_history t), Raise e).
Proof. intros H. unfold on_machine. now rewrite H. Qed.

Lemma on_machine_print (line : string) t :
  on_machine (print line) t
  = (mkTracer (set_stdout (stdout (machine t) ++ [line]) (machine t))
              (trace_history t), Ok tt).
Proof. reflexivity. Qed.

Lemma reg_read_pure c r : fst (on_regs (read_byte r) c) = c.
Proof.
  unfold on_regs.
  pose proof (read_byte_pure (gp_registers c) r) as H.
  destruct (read_byte r (gp_registers c)) as [m' x]. simpl in *. subst m'.
  apply set_gp_registers_id.
Qed.

Lemma stable_state_on_machine {A} (m : M CPU A) :
  stable (fun c => (ram c, gp_registers c, PC c, IR c, FL c)) m ->
  stable machine_state (on_machine m).
Proof.
  intros H t. unfold on_machine, machine_state. specialize (H (machine t)).
  now destruct (m (machine t)) as [c' x].
Qed.

Lemma stable_state_print (line : string) :
  stable machine_state (on_machine (print line)).
Proof. now intros t. Qed.

Lemma stable_state_ram_read a :
  stable machine_state (on_machine (ram_read a)).
Proof.
  apply stable_state_on_machine. intros c. now rewrite ram_read_pure.
Qed.

Lemma stable_state_reg_read r :
  stable machine_state (on_machine (on_regs (read_byte r))).
Proof.
  apply stable_state_on_machine. intros c. now rewrite reg_read_pure.
Qed.

Lemma stable_state_trace_registers (regs : list Z) :
  forall info, stable machine_state (trace_registers regs info).
Proof.
  induction regs as [| i rest IH]; intros info; simpl.
  - apply stable_ret.
  - apply stable_bind; [apply stable_state_reg_read | intros v]. apply IH.
Qed.

Lemma stable_state_print_lines (lines : list string) :
  stable machine_state (print_lines lines).
Proof.
  induction lines as [| line rest IH]; simpl.
  - apply stable_ret.
  - apply stable_bind; [apply stable_state_print | intros _]. apply IH.
Qed.

Lemma trace_registers_ok (regs : list Z) : forall info t,
  cpu_wf (machine t) -> Forall (fun i => 0 <= i <= 7) regs ->
  trace_registers regs info t
  = (t, Ok (fold_left
              (fun acc i => acc +:+ " " +:+ format_02X (reg (machine t) i))
              regs info)%string).
Proof.
  induction regs as [| i rest IH]; intros info t Hwf Hall; simpl.
  - reflexivity.
  - apply Forall_cons in Hall as [Hi Hrest].
    rewrite (bind_ok _ _ _ _ _
               (on_machine_ok _ t _ _ (reg_read_ok _ i Hwf Hi))).
    replace (mkTracer (machine t) (trace_history t)) with t
      by now destruct t.
    now apply IH.
Qed.

Lemma print_lines_ok (lines : list string) : forall t,
  print_lines lines t
  = (mkTracer (set_stdout (stdout (machine t) ++ lines) (machine t))
              (trace_history t), Ok tt).
Proof.
  induction lines as [| line rest IH]; intros t; simpl.
  - rewrite app_nil_r. unfold ret. f_equal.
    destruct t as [[] ?]; reflexivity.
  - rewrite bind_ok with (s1 := mkTracer
                                  (set_stdout (stdout (machine t) ++ [line])
                                              (machine t))
                                  (trace_history t)) (a := tt)
      by reflexivity.
    rewrite IH. cbn [machine trace_history stdout set_stdout].
    now rewrite <- app_assoc.
Qed.

Lemma length_last_n {A} (n : nat) (l : list A) :
  length (last_n n l) = Nat.min n (length l).
Proof. unfold last_n. rewrite length_drop. lia. Qed.
End TraceFacts.

Section StepFacts.
Context {S : Type} (R : S -> S -> Prop).
Context (R_refl : forall s, R s s).
Context (R_trans : forall s1 s2 s3, R s1 s2 -> R s2 s3 -> R s1 s3).

Lemma steps_ret {A} (a : A) : steps_within R (ret a).
Proof using R_refl. intros s. apply R_refl. Qed.

Lemma steps_get : steps_within R get.
Proof using R_refl. intros s. apply R_refl. Qed.

Lemma steps_bind {A B} (m : M S A) (k : A -> M S B) :
  steps_within R m -> (forall a, steps_within R (k a)) ->
  steps_within R (bind m k).
Proof using R_trans.
  intros Hm Hk s. unfold bind. specialize (Hm s).
  destruct (m s) as [s1 [a | e]]; simpl in *.
  - eapply R_trans; [exact Hm | apply Hk].
  - exact Hm.
Qed.
End StepFacts.

Section HistoryFacts.
Lemma history_extends_refl t : history_extends t t.
Proof. exists []. now rewrite app_nil_r. Qed.

Lemma history_extends_trans t1 t2 t3 :
  history_extends t1 t2 -> history_extends t2 t3 -> history_extends t1 t3.
Proof.
  intros [a1 H1] [a2 H2]. exists (a1 ++ a2).
  now rewrite H2, H1, app_assoc.
Qed.

Lemma history_on_machine {A} (m : M CPU A) :
  steps_within history_extends (on_machine m).
Proof.
  intros t. unfold on_machine. destruct (m (machine t)) as [c' x].
  exists []. simpl. now rewrite app_nil_r.
Qed.

Lemma history_trace_registers (regs : list Z) :
  forall info, steps_within history_extends (trace_registers regs info).
Proof.
  induction regs as [| i rest IH]; intros info; simpl.
  - apply steps_ret, history_extends_refl.
  - apply (steps_bind _ history_extends_trans);
      [apply history_on_machine | intros v; apply IH].
Qed.

Lemma history_print_lines (lines : list string) :
  steps_within history_extends (print_lines lines).
Proof.
  induction lines as [| line rest IH]; simpl.
  - apply steps_ret, history_extends_refl.
  - apply (steps_bind _ history_extends_trans);
      [apply history_on_machine | intros _; apply IH].
Qed.
End HistoryFacts.

(** X25. [trace] only prints and records: whether it returns or raises,
    memory, registers, PC, IR and flags are what they were, and the
    history it had is still there, at most extended at the end. *)
Theorem trace_leaves_machine (t : Tracer) :
  machine_state (fst (trace t)) = machine_state t /\
  history_extends t (fst (trace t)).
Proof.
  split.
  - revert t. change (stable machine_state trace). unfold trace.
    repeat first
      [ apply stable_state_print
      | apply stable_state_ram_read
      | apply stable_state_trace_registers
      | apply stable_state_print_lines
      | apply stable_get
      | apply stable_modify; reflexivity
      | apply stable_bind; [| intro] ].
  - revert t. change (steps_within history_extends trace). unfold trace.
    repeat first
      [ apply history_on_machine
      | apply history_trace_registers
      | apply history_print_lines
      | apply steps_get, history_extends_refl
      | apply (steps_bind _ history_extends_trans); [| intro] ].
    intros t. now eexists.
Qed.

(** X26. [trace] on a well-formed machine whose PC and the two addresses
    after it are inside memory returns; it prints the header, the splitter,
    the last five lines of the extended history (all of it when shorter)
    and an empty line, and it appends exactly one line, the line of the
    current state, to the history. *)
Theorem trace_records_and_prints (t : Tracer) :
  cpu_wf (machine t) -> 0 <= PC (machine t) -> PC (machine t) + 2 <= 255 ->
  trace t
  = (mkTracer
       (set_stdout
          (stdout (machine t)
           ++ [trace_header; trace_splitter]
           ++ last_n 5 (trace_history t ++ [trace_line (machine t)])
           ++ [""%string])
          (machine t))
       (trace_history t ++ [trace_line (machine t)]), Ok tt) /\
  length (last_n 5 (trace_history t ++ [trace_line (machine t)]))
  = Nat.min 5 (length (trace_history t) + 1).
Proof.
  intros Hwf Hpc0 Hpc2. split;
    [| rewrite length_last_n, length_app; reflexivity].
  destruct t as [c history]. cbn [machine trace_history] in *.
  unfold trace.
  rewrite (bind_ok _ _ _ _ _ (on_machine_print trace_header _)).
  rewrite (bind_ok _ _ _ _ _ (on_machine_print trace_splitter _)).
  rewrite bind_get. cbn [machine trace_history stdout set_stdout PC].
  set (c2 := set_stdout ((stdout c ++ [trace_header]) ++ [trace_splitter]) c).
  assert (Hwf2 : cpu_wf c2) by now apply cpu_wf_set_stdout.
  rewrite (bind_ok _ _ _ _ _
             (on_machine_ok _ (mkTracer c2 history) _ _
                (ram_read_ok c2 (PC c) Hwf2 ltac:(lia)))).
  rewrite (bind_ok _ _ _ _ _
             (on_machine_ok _ (mkTracer c2 history) _ _
                (ram_read_ok c2 (PC c + 1) Hwf2 ltac:(lia)))).
  rewrite (bind_ok _ _ _ _ _
             (on_machine_ok _ (mkTracer c2 history) _ _
                (ram_read_ok c2 (PC c + 2) Hwf2 ltac:(lia)))).
  cbn [machine trace_history].
  rewrite (bind_ok _ _ _ _ _
             (trace_registers_ok (seqZ 0 8) _ (mkTracer c2 history) Hwf2
                ltac:(vm_compute; repeat constructor; discriminate))).
  rewrite bind_get, bind_modify, bind_get.
  cbn [machine trace_history].
  rewrite (bind_ok _ _ _ _ _ (print_lines_ok _ _)).
  rewrite on_machine_print. cbn [machine trace_history stdout set_stdout].
  assert (Hline :
            (fold_left
               (fun acc i => acc +:+ " " +:+ format_02X (reg c2 i))
               (seqZ 0 8)
               (format_02X (PC c) +:+ " | " +:+ format_02X (byte_at c2 (PC c))
                +:+ " " +:+ format_02X (byte_at c2 (PC c + 1))
                +:+ " " +:+ format_02X (byte_at c2 (PC c + 2)) +:+ " |")
             +:+ " | " +:+ format_02X (FL c2))%string = trace_line c)
    by reflexivity.
  rewrite Hline. f_equal. f_equal.
  unfold c2, set_stdout. cbn [ram gp_registers PC IR FL stdout]. f_equal.
  now rewrite <- !app_assoc.
Qed.

Lemma trace_records_and_prints_witness :
  trace (mkTracer (loaded prog_mul) ["a"; "b"; "c"; "d"; "e"]%string)
  = (mkTracer
       (set_stdout
          ([trace_header; trace_splitter; "b"; "c"; "d"; "e";
            "00 | 82 00 08 | 00 00 00 00 00 00 00 F4 | 00"; ""]%string)
          (loaded prog_mul))
       (["a"; "b"; "c"; "d"; "e";
         "00 | 82 00 08 | 00 00 00 00 00 00 00 F4 | 00"]%string), Ok tt).
Proof.
  destruct (trace_records_and_prints
              (mkTracer (loaded prog_mul) ["a"; "b"; "c"; "d"; "e"]%string))
    as [H _].
  - apply loaded_wf.
  - by_evaluation.
  - by_evaluation.
  - rewrite H. vm_compute. reflexivity.
Defined.

(** X27. [trace] fails on an instruction it could otherwise show: when PC
    is not an address, or PC + 1 or PC + 2 is past the end of memory, it
    raises the out-of-bounds error after the header and the splitter have
    been printed, and records nothing in the history. *)
Theorem trace_near_end_of_memory (t : Tracer) :
  cpu_wf (machine t) -> PC (machine t) < 0 \/ 253 < PC (machine t) ->
  trace t
  = (mkTracer
       (set_stdout (stdout (machine t) ++ [trace_header; trace_splitter])
                   (machine t))
       (trace_history t), Raise out_of_bounds).
Proof.
  intros Hwf Hpc. destruct t as [c history].
  cbn [machine trace_history] in *. unfold trace.
  rewrite (bind_ok _ _ _ _ _ (on_machine_print trace_header _)).
  rewrite (bind_ok _ _ _ _ _ (on_machine_print trace_splitter _)).
  rewrite bind_get. cbn [machine trace_history stdout set_stdout PC].
  rewrite <- app_assoc. cbn [app].
  set (c2 := set_stdout (stdout c ++ [trace_header; trace_splitter]) c).
  assert (Hwf2 : cpu_wf c2) by now apply cpu_wf_set_stdout.
  destruct (Z.lt_ge_cases (PC c) 0) as [H0 | H0];
    [| destruct (Z.lt_ge_cases 255 (PC c)) as [H1 | H1];
       [| destruct (Z.lt_ge_cases 255 (PC c + 1)) as [H2 | H2]]].
  - now rewrite (bind_raise _ _ _ _ _
                   (on_machine_raise _ (mkTracer c2 history) _ _
                      (ram_read_out_of_bounds c2 (PC c) Hwf2 ltac:(lia)))).
  - now rewrite (bind_raise _ _ _ _ _
                   (on_machine_raise _ (mkTracer c2 history) _ _
                      (ram_read_out_of_bounds c2 (PC c) Hwf2 ltac:(lia)))).
  - rewrite (bind_ok _ _ _ _ _
               (on_machine_ok _ (mkTracer c2 history) _ _
                  (ram_read_ok c2 (PC c) Hwf2 ltac:(lia)))).
    now rewrite (bind_raise _ _ _ _ _
                   (on_machine_raise _ (mkTracer c2 history) _ _
                      (ram_read_out_of_bounds c2 (PC c + 1) Hwf2
                         ltac:(lia)))).
  - rewrite (bind_ok _ _ _ _ _
               (on_machine_ok _ (mkTracer c2 history) _ _
                  (ram_read_ok c2 (PC c) Hwf2 ltac:(lia)))).
    rewrite (bind_ok _ _ _ _ _
               (on_machine_ok _ (mkTracer c2 history) _ _
                  (ram_read_ok c2 (PC c + 1) Hwf2 ltac:(lia)))).
    now rewrite (bind_raise _ _ _ _ _
                   (on_machine_raise _ (mkTracer c2 history) _ _
                      (ram_read_out_of_bounds c2 (PC c + 2) Hwf2
                         ltac:(lia)))).
Qed.

Lemma trace_near_end_of_memory_witness :
  trace (mkTracer (set_PC 254 (loaded [0x01])) ["a"%string])
  = (mkTracer
       (set_stdout
          (stdout (set_PC 254 (loaded [0x01]))
           ++ [trace_header; trace_splitter])
          (set_PC 254 (loaded [0x01])))
       ["a"%string], Raise out_of_bounds).
Proof.
  apply (trace_near_end_of_memory
           (mkTracer (set_PC 254 (loaded [0x01])) ["a"%string])).
  - apply cpu_wf_set_PC, loaded_wf.
  - right. simpl. lia.
Defined.

(** ** What [load] and the instructions leave alone *)

Section FootprintFacts.
Lemma stable_load_lines_from {X} (f : CPU -> X) (lines : list string) :
  (forall r c, f (set_ram r c) = f c) ->
  forall address, stable f (load_lines_from address lines).
Proof.
  intros Hf. induction lines as [| line rest IH]; intros address; simpl.
  - apply stable_ret.
  - destruct (parse_line line) as [data |]; [| apply IH].
    apply stable_bind; [| intros _; apply IH].
    unfold ram_write. now apply stable_on_ram.
Qed.

Lemma preserves_load_lines_from (lines : list string) :
  forall address, preserves cpu_wf (load_lines_from address lines).
Proof.
  induction lines as [| line rest IH]; intros address; simpl.
  - apply preserves_ret.
  - destruct (parse_line line) as [data |]; [| apply IH].
    unfold ram_write. apply preserves_bind; [auto with py | intros _].
    apply IH.
Qed.

Lemma stable_ram_read_any {X} (f : CPU -> X) a :
  stable f (on_ram (read_byte a)).
Proof. intros c. fold (ram_read a). now rewrite ram_read_pure. Qed.

Lemma stable_reg_read_any {X} (f : CPU -> X) r :
  stable f (on_regs (read_byte r)).
Proof. intros c. now rewrite reg_read_pure. Qed.
End FootprintFacts.

#[export] Hint Resolve stable_ram_read_any stable_reg_read_any : py.

(** The opcodes of the table one by one: discharge the excluded ones, then
    decide the handler by the combinators. *)
Ltac by_opcode :=
  simpl;
  repeat match goal with
         | |- _ <> _ -> _ => let H := fresh in intro H
         end;
  try congruence;
  try match goal with
      | |- forall reg_a reg_b : Z, _ => intros ? ?
      end;
  by_combinators.

Section Footprints.
Lemma dispatch_table_keeps_ram k h :
  dispatch_table !! k = Some h -> k <> Op.PUSH ->
  handler_forall (stable ram) h.
Proof.
  revert k h.
  apply (dispatch_table_forall
           (fun k h => k <> Op.PUSH -> handler_forall (stable ram) h));
    by_opcode.
Qed.

Lemma dispatch_table_keeps_registers k h :
  dispatch_table !! k = Some h ->
  k <> Op.LDI -> k <> Op.PUSH -> k <> Op.POP -> k <> Op.MUL ->
  handler_forall (stable gp_registers) h.
Proof.
  revert k h.
  apply (dispatch_table_forall
           (fun k h => k <> Op.LDI -> k <> Op.PUSH -> k <> Op.POP ->
                       k <> Op.MUL ->
                       handler_forall (stable gp_registers) h));
    by_opcode.
Qed.

Lemma dispatch_table_keeps_flags k h :
  dispatch_table !! k = Some h -> k <> Op.HLT -> k <> Op.CMP ->
  handler_forall (stable FL) h.
Proof.
  revert k h.
  apply (dispatch_table_forall
           (fun k h => k <> Op.HLT -> k <> Op.CMP ->
                       handler_forall (stable FL) h));
    by_opcode.
Qed.

Lemma dispatch_table_keeps_output k h :
  dispatch_table !! k = Some h -> k <> Op.PRN ->
  handler_forall (stable stdout) h.
Proof.
  revert k h.
  apply (dispatch_table_forall
           (fun k h => k <> Op.PRN -> handler_forall (stable stdout) h));
    by_opcode.
Qed.

(** The [try]/[except KeyError] around a dispatched call, from one
    well-formed state: a handler of the table never raises a [KeyError], so
    the fallback runs only when the opcode is not in the table. *)
Lemma dispatched_keeps {X} (f : CPU -> X) (call : handler -> M CPU unit)
      (msg : Z -> Z -> string) (k : Z) (c : CPU) :
  cpu_wf c ->
  (forall h, dispatch_table !! k = Some h ->
             stable f (call h) /\
             raises_only cpu_wf machine_error (call h)) ->
  (dispatch_table !! k = None ->
   stable f (let! c := get in print (msg (IR c) (PC c)) ;; HLT)) ->
  f (fst (try_except
            (let! h := dispatch k in call h)
            (fun e => match e with
                      | KeyError _ =>
                          let! c := get in print (msg (IR c) (PC c)) ;; HLT
                      | _ => raise e
                      end) c)) = f c.
Proof.
  intros Hwf Hmapped Hunmapped. unfold try_except, bind, dispatch.
  destruct (dispatch_table !! k) as [h |].
  - destruct (Hmapped h eq_refl) as [Hst Hok]. unfold ret.
    specialize (Hst c). destruct (Hok c Hwf) as [_ Hr].
    destruct (call h c) as [c1 [u | e]]; simpl in *; [exact Hst |].
    destruct (Hr e eq_refl) as [-> | ->]; exact Hst.
  - unfold raise. apply (Hunmapped eq_refl c).
Qed.

(** What the instruction in IR leaves alone, [execute] leaves alone. *)
Lemma execute_keeps {X} (f : CPU -> X) (c : CPU) :
  cpu_wf c ->
  (forall h, dispatch_table !! IR c = Some h -> handler_forall (stable f) h) ->
  (dispatch_table !! IR c = None ->
   forall msg : Z -> Z -> string,
     stable f (let! c := get in print (msg (IR c) (PC c)) ;; HLT)) ->
  f (fst (execute c)) = f c.
Proof.
  intros Hwf Hmapped Hunmapped. unfold execute. rewrite bind_get.
  destruct (Z.eqb_spec (use_alu (IR c)) 0) as [Halu | Halu]; cbn [negb].
  - apply (dispatched_keeps f call0 unknown_msg (IR c) c Hwf);
      [| intros Hnone; now apply Hunmapped].
    intros h Hh.
    pose proof (dispatch_table_arity _ _ Hh) as Harity.
    pose proof (dispatch_table_raises_only _ _ Hh) as Hok.
    pose proof (Hmapped h Hh) as Hst.
    destruct h as [g | g]; [now split | congruence].
  - destruct (ram_read_cases c (PC c + 1) Hwf) as [H1 | H1];
      [rewrite (bind_ok _ _ _ _ _ H1)
      | now rewrite (bind_raise _ _ _ _ _ H1)].
    destruct (ram_read_cases c (PC c + 2) Hwf) as [H2 | H2];
      [rewrite (bind_ok _ _ _ _ _ H2)
      | now rewrite (bind_raise _ _ _ _ _ H2)].
    unfold alu, try_except at 1. rewrite bind_get.
    apply (dispatched_keeps f
             (fun h => call2 h (byte_at c (PC c + 1)) (byte_at c (PC c + 2)))
             unknown_alu_msg (IR c) c Hwf);
      [| intros Hnone; now apply Hunmapped].
    intros h Hh.
    pose proof (dispatch_table_arity _ _ Hh) as Harity.
    pose proof (dispatch_table_raises_only _ _ Hh) as Hok.
    pose proof (Hmapped h Hh) as Hst.
    destruct h as [g | g]; [congruence | split; [apply Hst | apply Hok]].
Qed.

(** The same for a whole iteration of the loop, for an observation that the
    instruction register and the program counter do not enter. *)
Lemma cycle_keeps {X} (f : CPU -> X) (c : CPU) :
  cpu_wf c ->
  (forall v c0, f (set_IR v c0) = f c0) ->
  (forall v c0, f (set_PC v c0) = f c0) ->
  (forall h, dispatch_table !! byte_at c (PC c) = Some h ->
             handler_forall (stable f) h) ->
  (dispatch_table !! byte_at c (PC c) = None ->
   forall msg : Z -> Z -> string,
     stable f (let! c := get in print (msg (IR c) (PC c)) ;; HLT)) ->
  f (fst (cycle c)) = f c.
Proof.
  intros Hwf HIR HPC Hmapped Hunmapped. unfold cycle. rewrite bind_get.
  destruct (ram_read_cases c (PC c) Hwf) as [H1 | H1];
    [rewrite (bind_ok _ _ _ _ _ H1)
    | now rewrite (bind_raise _ _ _ _ _ H1)].
  rewrite bind_modify.
  pose proof (execute_keeps f (set_IR (byte_at c (PC c)) c)
                (cpu_wf_set_IR c _ Hwf) Hmapped Hunmapped) as Hexec.
  rewrite HIR in Hexec. unfold bind.
  destruct (execute (set_IR (byte_at c (PC c)) c)) as [c1 [[] | e]];
    simpl in Hexec; [| exact Hexec].
  unfold advance. rewrite bind_get.
  destruct (sets_pc (IR c1) =? 0); simpl; [now rewrite HPC | exact Hexec].
Qed.
End Footprints.

(** X28. The footprint of one iteration of the loop on a well-formed
    machine, whether it completes or raises.  Main memory changes only when
    the instruction at PC is PUSH.  The registers change only when it is
    LDI, PUSH, POP or MUL.  For an instruction of the table, the flags
    change only when it is HLT or CMP, and a line is printed only when it
    is PRN. *)
Theorem instruction_footprint (c : CPU) :
  cpu_wf c ->
  (byte_at c (PC c) <> Op.PUSH -> ram (fst (cycle c)) = ram c) /\
  (byte_at c (PC c) <> Op.LDI -> byte_at c (PC c) <> Op.PUSH ->
   byte_at c (PC c) <> Op.POP -> byte_at c (PC c) <> Op.MUL ->
   gp_registers (fst (cycle c)) = gp_registers c) /\
  (dispatch_table !! byte_at c (PC c) <> None ->
   byte_at c (PC c) <> Op.HLT -> byte_at c (PC c) <> Op.CMP ->
   FL (fst (cycle c)) = FL c) /\
  (dispatch_table !! byte_at c (PC c) <> None ->
   byte_at c (PC c) <> Op.PRN ->
   stdout (fst (cycle c)) = stdout c).
Proof.
  intros Hwf. repeat split.
  - intros Hk. apply (cycle_keeps ram c Hwf); try reflexivity.
    + intros h Hh. now apply (dispatch_table_keeps_ram _ _ Hh).
    + intros _ msg. now apply stable_unknown.
  - intros H1 H2 H3 H4.
    apply (cycle_keeps gp_registers c Hwf); try reflexivity.
    + intros h Hh. now apply (dispatch_table_keeps_registers _ _ Hh).
    + intros _ msg. now apply stable_unknown.
  - intros Hmapped H1 H2. apply (cycle_keeps FL c Hwf); try reflexivity.
    + intros h Hh. now apply (dispatch_table_keeps_flags _ _ Hh).
    + intros Hnone. contradiction.
  - intros Hmapped H1. apply (cycle_keeps stdout c Hwf); try reflexivity.
    + intros h Hh. now apply (dispatch_table_keeps_output _ _ Hh).
    + intros Hnone. contradiction.
Qed.

Lemma instruction_footprint_witness :
  ram (fst (cycle (loaded prog_mul))) = ram (loaded prog_mul) /\
  FL (fst (cycle (loaded prog_mul))) = FL (loaded prog_mul) /\
  stdout (fst (cycle (loaded prog_mul))) = stdout (loaded prog_mul).
Proof.
  destruct (instruction_footprint (loaded prog_mul) (loaded_wf _))
    as (H1 & _ & H3 & H4).
  split; [| split].
  - apply H1. by_evaluation.
  - apply H3; by_evaluation.
  - apply H4; by_evaluation.
Defined.

(** X29. [load] touches main memory only: whatever the lines of the file
    and whether it returns or raises, registers, PC, IR, flags and output
    are what they were, and a well-formed machine stays well formed. *)
Theorem load_touches_memory_only (lines : list string) (c : CPU) :
  gp_registers (fst (load_lines lines c)) = gp_registers c /\
  PC (fst (load_lines lines c)) = PC c /\
  IR (fst (load_lines lines c)) = IR c /\
  FL (fst (load_lines lines c)) = FL c /\
  stdout (fst (load_lines lines c)) = stdout c /\
  (cpu_wf c -> cpu_wf (fst (load_lines lines c))).
Proof.
  assert (Hst : forall X (f : CPU -> X),
             (forall r c0, f (set_ram r c0) = f c0) ->
             f (fst (load_lines lines c)) = f c).
  { intros X f Hf. revert c. change (stable f (load_lines lines)).
    unfold load_lines. apply stable_bind.
    - now apply stable_on_ram.
    - intros _. now apply stable_load_lines_from. }
  assert (Hwf : preserves cpu_wf (load_lines lines)).
  { unfold load_lines. apply preserves_bind; [auto with py | intros _].
    apply preserves_load_lines_from. }
  do 5 (split; [apply Hst; reflexivity |]). apply Hwf.
Qed.

Lemma load_touches_memory_only_witness :
  cpu_wf (fst (load_lines ["10000010 # LDI R0,8"; "no number"; "100000000"]%string
                          CPU_init)).
Proof.
  destruct (load_touches_memory_only
              ["10000010 # LDI R0,8"; "no number"; "100000000"]%string CPU_init)
    as (_ & _ & _ & _ & _ & H).
  apply H, cpu_wf_init.
Defined.

(** ** A loop that never ends *)

Lemma dispatch_JMP : dispatch_table !! Op.JMP = Some (Handler0 JMP).
Proof. reflexivity. Qed.

(** X30. [run] need not return: on a running, well-formed machine whose
    instruction at PC is a JMP through a register that holds PC itself,
    every iteration leaves the machine where it is, and no number of
    iterations ends the loop. *)
Theorem jump_to_self_never_halts (fuel : nat) (c : CPU) :
  cpu_wf c -> running c = true -> 0 <= PC c -> PC c + 1 <= 255 ->
  byte_at c (PC c) = Op.JMP -> 0 <= byte_at c (PC c + 1) <= 7 ->
  reg c (byte_at c (PC c + 1)) = PC c ->
  cycle c = (set_IR Op.JMP c, Ok tt) /\ run_loop fuel c = None.
Proof.
  intros Hwf Hrun Hpc0 Hpc1 Hop Hr Htarget.
  assert (Hcycle : forall c0,
             cpu_wf c0 -> 0 <= PC c0 -> PC c0 + 1 <= 255 ->
             byte_at c0 (PC c0) = Op.JMP ->
             0 <= byte_at c0 (PC c0 + 1) <= 7 ->
             reg c0 (byte_at c0 (PC c0 + 1)) = PC c0 ->
             cycle c0 = (set_IR Op.JMP c0, Ok tt)).
  { intros c0 Hwf0 H0 H1 Hop0 Hr0 Ht0.
    rewrite (cycle_handler0 c0 (set_IR Op.JMP c0) JMP);
      try assumption; try lia.
    - reflexivity.
    - rewrite Hop0. apply dispatch_JMP.
    - rewrite Hop0. rewrite JMP_ok;
        [| now apply cpu_wf_set_IR | cbn [PC set_IR]; lia
         | cbn [PC set_IR]; exact Hr0].
      cbn [PC set_IR].
      change (byte_at (set_IR Op.JMP c0)) with (byte_at c0).
      change (reg (set_IR Op.JMP c0)) with (reg c0).
      rewrite Ht0. reflexivity. }
  split; [now apply Hcycle |].
  revert c Hwf Hrun Hpc0 Hpc1 Hop Hr Htarget.
  induction fuel as [| fuel IH]; intros c Hwf Hrun Hpc0 Hpc1 Hop Hr Htarget.
  - simpl. now rewrite Hrun.
  - rewrite (run_loop_step fuel c (set_IR Op.JMP c) Hrun
               (Hcycle c Hwf Hpc0 Hpc1 Hop Hr Htarget)).
    apply IH; assumption.
Qed.

Lemma jump_to_self_never_halts_witness :
  cycle (set_FL FLAG_RUNNING (loaded [0x54; 0]))
  = (set_IR Op.JMP (set_FL FLAG_RUNNING (loaded [0x54; 0])), Ok tt) /\
  run_loop 1000 (set_FL FLAG_RUNNING (loaded [0x54; 0])) = None.
Proof.
  apply jump_to_self_never_halts.
  - apply cpu_wf_set_FL, loaded_wf.
  - reflexivity.
  - by_evaluation.
  - by_evaluation.
  - by_evaluation.
  - by_evaluation.
  - by_evaluation.
Defined.
